(** * The password generator of Task-3-Password-Generator

    A shallow embedding of [password_generator.py]: the class
    [PasswordGenerator] ([generate_password], [generate_passphrase],
    [check_strength]) and the passphrase branch of [main], together with the
    parts of Python's [string], [secrets] and [random] modules they call. *)

From Stdlib Require Import ZArith NArith String Ascii Lia.
From Stdlib Require DecimalString.
From stdpp Require Import base list.

Local Open Scope Z_scope.

(** ** Python strings

    A Python [str] is a sequence of Unicode code points.  A character is its
    code point; a string literal of the source is written with [lit]. *)

Definition char : Type := N.
Definition str : Type := list char.

Definition ch (a : ascii) : char := N_of_ascii a.

Definition lit (s : string) : str :=
  List.map ch (list_ascii_of_string s).

(** [s.replace(c, '')] for a one-character [c]: every occurrence goes. *)
Definition remove_char (c : char) (s : str) : str :=
  List.filter (fun x => negb (N.eqb x c)) s.

(** [c in s] for a one-character [c]. *)
Definition char_in (c : char) (s : str) : bool :=
  List.existsb (N.eqb c) s.

(** [sep.join(parts)]. *)
Fixpoint join (sep : str) (parts : list str) : str :=
  match parts with
  | [] => []
  | [p] => p
  | p :: rest => p ++ sep ++ join sep rest
  end.

(** [str(n)] for a non-negative integer: decimal, no padding. *)
Definition str_of_nat (n : nat) : str :=
  lit (DecimalString.NilEmpty.string_of_uint (Nat.to_uint n)).

(** ** The [string] module's constants *)

Module PyString.

Definition ascii_lowercase : str := lit "abcdefghijklmnopqrstuvwxyz".
Definition ascii_uppercase : str := lit "ABCDEFGHIJKLMNOPQRSTUVWXYZ".
Definition digits : str := lit "0123456789".

(** [string.punctuation]: the quotation mark (code point 34) is spliced in
    between [!] and [#]. *)
Definition punctuation : str :=
  lit "!" ++ [34%N] ++
  lit "#$%&'()*+,-./:;<=>?@[\]^_`{|}~".

End PyString.

(** ** Outcomes, the world, and the monad of a method call

    A call either returns or raises; it reads and advances the two random
    generators and may append to [self.history].  The operating system's
    entropy behind [secrets] and the state of the module-level Mersenne
    Twister behind [random] are two separate streams: entry [i] of a stream
    stands for the outcome of the [i]-th call into that generator, reduced
    into the requested range. *)

Inductive exn : Type := IndexError | ValueError.

Inductive outcome (A : Type) : Type :=
  | Returned (a : A)
  | Raised (e : exn).
Arguments Returned {A} a.
Arguments Raised {A} e.

Record World : Type := mkWorld {
  secure : nat -> nat;
  secure_pos : nat;
  twister : nat -> nat;
  twister_pos : nat;
  history : list str
}.

Definition M (A : Type) : Type := World -> outcome A * World.

Definition ret {A} (a : A) : M A := fun w => (Returned a, w).

Definition raise {A} (e : exn) : M A := fun w => (Raised e, w).

Definition bind {A B} (m : M A) (f : A -> M B) : M B :=
  fun w =>
    match m w with
    | (Returned a, w') => f a w'
    | (Raised e, w') => (Raised e, w')
    end.

Notation "x <- m ;; k" := (bind m (fun x => k))
  (at level 100, m at next level, right associativity).

(** [[m for _ in range(n)]]. *)
Fixpoint replicateM {A} (n : nat) (m : M A) : M (list A) :=
  match n with
  | O => ret []
  | S n' => a <- m ;; rest <- replicateM n' m ;; ret (a :: rest)
  end.

(** ** The [secrets] and [random] modules *)

Module Secrets.

Definition next_draw (bound : nat) : M nat := fun w =>
  (Returned (secure w (secure_pos w) mod bound)%nat,
   mkWorld (secure w) (S (secure_pos w)) (twister w) (twister_pos w) (history w)).

(** [secrets.randbelow(n)]: [ValueError] unless [n] is positive. *)
Definition randbelow (n : Z) : M nat :=
  if n <=? 0 then raise ValueError else next_draw (Z.to_nat n).

(** [secrets.choice(seq)]: [IndexError] on an empty sequence. *)
Definition choice {A} (seq : list A) : M A :=
  match seq with
  | [] => raise IndexError
  | _ :: _ =>
      i <- next_draw (length seq) ;;
      match seq !! i with
      | Some a => ret a
      | None => raise IndexError
      end
  end.

End Secrets.

Module Random.

Definition next_draw (bound : nat) : M nat := fun w =>
  (Returned (twister w (twister_pos w) mod bound)%nat,
   mkWorld (secure w) (secure_pos w) (twister w) (S (twister_pos w)) (history w)).

(** [x[i], x[j] = x[j], x[i]]. *)
Definition swap_items {A} (x : list A) (i j : nat) : M (list A) :=
  match x !! i, x !! j with
  | Some a, Some b => ret (<[j:=a]> (<[i:=b]> x))
  | _, _ => raise IndexError
  end.

(** The loop of [random.shuffle]:
    [for i in reversed(range(1, len(x))): j = randbelow(i + 1); swap]. *)
Fixpoint shuffle_from {A} (i : nat) (x : list A) : M (list A) :=
  match i with
  | O => ret x
  | S i' =>
      j <- next_draw (S i) ;;
      x' <- swap_items x i j ;;
      shuffle_from i' x'
  end.

(** [random.shuffle(x)], on the module-level generator. *)
Definition shuffle {A} (x : list A) : M (list A) :=
  shuffle_from (length x - 1)%nat x.

End Random.

(** ** The class [PasswordGenerator]

    [self.lowercase], [self.uppercase], [self.digits] and [self.symbols] are
    set once in [__init__] and never assigned again; [self.history] is the
    [history] field of the world. *)

Module PasswordGenerator.

Definition lowercase : str := PyString.ascii_lowercase.
Definition uppercase : str := PyString.ascii_uppercase.
Definition digits : str := PyString.digits.
Definition symbols : str := PyString.punctuation.

(** The two strings [generate_password] returns in place of a password. *)
Definition length_error : str :=
  lit "Error: Password length must be at least 4 characters".
Definition no_class_error : str :=
  lit "Error: At least one character type must be selected".

(** [self.history.append(entry)]. *)
Definition history_append (entry : str) : M unit := fun w =>
  (Returned tt,
   mkWorld (secure w) (secure_pos w) (twister w) (twister_pos w)
           (history w ++ [entry])).

(** [chars] of each [if use_...:] block, after the two [replace] calls when
    [exclude_ambiguous] is set.  The symbols block has no such step. *)
Definition lower_chars (exclude_ambiguous : bool) : str :=
  let chars := lowercase in
  if exclude_ambiguous
  then remove_char (ch "o") (remove_char (ch "l") chars)
  else chars.

Definition upper_chars (exclude_ambiguous : bool) : str :=
  let chars := uppercase in
  if exclude_ambiguous
  then remove_char (ch "O") (remove_char (ch "I") chars)
  else chars.

Definition digit_chars (exclude_ambiguous : bool) : str :=
  let chars := digits in
  if exclude_ambiguous
  then remove_char (ch "1") (remove_char (ch "0") chars)
  else chars.

(** The body shared by the four blocks: [char_pool += chars] and
    [required_chars.append(secrets.choice(chars))].  The pair carries the two
    local variables [(char_pool, required_chars)]. *)
Definition take_class (chars : str) (locals : str * list char)
  : M (str * list char) :=
  let char_pool := fst locals ++ chars in
  c <- Secrets.choice chars ;;
  ret (char_pool, snd locals ++ [c]).

Definition generate_password
    (length : Z)
    (use_upper use_lower use_digits use_symbols exclude_ambiguous : bool)
  : M str :=
  if length <? 4 then ret length_error else
  let locals : str * list char := ([], []) in
  locals <- (if use_lower
             then take_class (lower_chars exclude_ambiguous) locals
             else ret locals) ;;
  locals <- (if use_upper
             then take_class (upper_chars exclude_ambiguous) locals
             else ret locals) ;;
  locals <- (if use_digits
             then take_class (digit_chars exclude_ambiguous) locals
             else ret locals) ;;
  locals <- (if use_symbols
             then take_class symbols locals
             else ret locals) ;;
  let char_pool := fst locals in
  let required_chars := snd locals in
  match char_pool with
  | [] => ret no_class_error
  | _ :: _ =>
      let remaining_length := length - Z.of_nat (List.length required_chars) in
      filler <- replicateM (Z.to_nat remaining_length)
                           (Secrets.choice char_pool) ;;
      let password_chars := required_chars ++ filler in
      password_chars <- Random.shuffle password_chars ;;
      let password := password_chars in
      _ <- history_append password ;;
      ret password
  end.

(** The word list of [generate_passphrase]. *)
Definition words : list str :=
  List.map lit
    [ "alpha"; "bravo"; "charlie"; "delta"; "echo"; "foxtrot"; "golf";
      "hotel"; "india"; "juliett"; "kilo"; "lima"; "mike"; "november";
      "oscar"; "papa"; "quebec"; "romeo"; "sierra"; "tango"; "uniform";
      "victor"; "whiskey"; "xray"; "yankee"; "zulu"; "ocean"; "mountain";
      "river"; "forest"; "desert"; "island"; "valley"; "canyon"; "summit"
    ]%string.

(** [s.upper()] and [s.lower()] on one ASCII character; the word list has
    no other. *)
Definition ascii_upper (c : char) : char :=
  if ((ch "a" <=? c) && (c <=? ch "z"))%N then (c - 32)%N else c.
Definition ascii_lower (c : char) : char :=
  if ((ch "A" <=? c) && (c <=? ch "Z"))%N then (c + 32)%N else c.

(** [s.capitalize()]: first character upper-cased, the rest lower-cased. *)
Definition capitalize (s : str) : str :=
  match s with
  | [] => []
  | c :: rest => ascii_upper c :: List.map ascii_lower rest
  end.

Definition generate_passphrase (word_count : Z) : M str :=
  selected_words <- replicateM (Z.to_nat word_count)
                      (w <- Secrets.choice words ;; ret (capitalize w)) ;;
  suffix <- Secrets.randbelow 100 ;;
  let passphrase := join (lit "-") selected_words ++ str_of_nat suffix in
  _ <- history_append passphrase ;;
  ret passphrase.

(** [check_strength] calls [str.islower], [str.isupper] and [str.isdigit] on
    single characters.  On ASCII these are the three ranges below; above
    ASCII they are read from the interpreter's Unicode character database,
    which is taken as given. *)
Record UnicodeData : Type := mkUnicodeData {
  ud_lower : char -> bool;
  ud_upper : char -> bool;
  ud_digit : char -> bool;
  ud_alnum : char -> bool;
  ud_space : char -> bool
}.

Record StrengthReport : Type := mkReport {
  strength : str;
  score : Z;
  feedback : list str
}.

Definition strong_label : str := lit "Strong " ++ [0x1F7E2%N].
Definition medium_label : str := lit "Medium " ++ [0x1F7E1%N].
Definition weak_label : str := lit "Weak " ++ [0x1F534%N].

Definition too_short_msg : str := lit "Too short (minimum 8 characters)".
Definition add_lower_msg : str := lit "Add lowercase letters".
Definition add_upper_msg : str := lit "Add uppercase letters".
Definition add_digit_msg : str := lit "Add numbers".
Definition add_symbol_msg : str := lit "Add special characters".

Section CheckStrength.

Context (U : UnicodeData).

Definition is_ascii (c : char) : bool := (c <? 128)%N.

Definition islower (c : char) : bool :=
  if is_ascii c then ((ch "a" <=? c) && (c <=? ch "z"))%N else ud_lower U c.

Definition isupper (c : char) : bool :=
  if is_ascii c then ((ch "A" <=? c) && (c <=? ch "Z"))%N else ud_upper U c.

Definition isdigit (c : char) : bool :=
  if is_ascii c then ((ch "0" <=? c) && (c <=? ch "9"))%N else ud_digit U c.

(** One [if any(...): score += 1 / else: feedback.append(msg)] step on the
    pair [(score, feedback)]. *)
Definition variety_check (found : bool) (msg : str) (acc : Z * list str)
  : Z * list str :=
  if found then (fst acc + 1, snd acc) else (fst acc, snd acc ++ [msg]).

Definition check_strength (password : str) : StrengthReport :=
  let acc : Z * list str := (0, []) in
  let len := Z.of_nat (List.length password) in
  let acc :=
    if 12 <=? len then (fst acc + 2, snd acc)
    else if 8 <=? len then (fst acc + 1, snd acc)
    else (fst acc, snd acc ++ [too_short_msg]) in
  let acc := variety_check (List.existsb islower password) add_lower_msg acc in
  let acc := variety_check (List.existsb isupper password) add_upper_msg acc in
  let acc := variety_check (List.existsb isdigit password) add_digit_msg acc in
  let acc :=
    variety_check
      (List.existsb (fun c => char_in c PyString.punctuation) password)
      add_symbol_msg acc in
  let score := fst acc in
  let strength :=
    if 5 <=? score then strong_label
    else if 3 <=? score then medium_label
    else weak_label in
  mkReport strength score (snd acc).

End CheckStrength.

(** [s * n] for a one-character [s]. *)
Definition repeat_char (c : char) (n : nat) : str := List.repeat c n.

(** [s.center(width)], padded with spaces: of the [marg] missing columns
    [marg // 2 + (marg & width & 1)] go to the left. *)
Definition center (s : str) (width : nat) : str :=
  let n := List.length s in
  if (width <=? n)%nat then s
  else
    let marg := (width - n)%nat in
    let left :=
      (marg / 2 + (if Nat.odd marg && Nat.odd width then 1 else 0))%nat in
    repeat_char (ch " ") left ++ s ++ repeat_char (ch " ") (marg - left).

(** [seq[-n:]] for a positive [n]: the last [n] items, or all of them. *)
Definition last_items {A} (n : nat) (seq : list A) : list A :=
  drop (List.length seq - n)%nat seq.

(** [enumerate(seq, start)]. *)
Fixpoint enumerate {A} (seq : list A) (start : nat) : list (nat * A) :=
  match seq with
  | [] => []
  | a :: rest => (start, a) :: enumerate rest (S start)
  end.

Definition no_history_msg : str :=
  [10%N; 0x1F4CA%N] ++ lit " No password history available.".

(** The line [f"\n[{i}] {pwd}"]. *)
Definition history_line (entry : nat * str) : str :=
  [10%N] ++ lit "[" ++ str_of_nat (fst entry) ++ lit "] " ++ snd entry.

(** [show_history]: the value returned is the list of the texts it prints,
    one per [print] call. *)
Definition show_history : M (list str) := fun w =>
  match history w with
  | [] => (Returned [no_history_msg], w)
  | _ :: _ =>
      (Returned
         ([ [10%N] ++ repeat_char (ch "=") 60;
            center (lit "PASSWORD HISTORY") 60;
            repeat_char (ch "=") 60 ]
          ++ List.map history_line (enumerate (last_items 10 (history w)) 1)
          ++ [ [10%N] ++ repeat_char (ch "=") 60 ]),
       w)
  end.

End PasswordGenerator.

(** ** The branches of [main]

    What option 2 of the menu does once [int(input(...))] has produced
    [word_count]; the value returned is the text it prints.  The clipboard
    dialogue that follows a generation touches neither the generator nor the
    history.  Option 1 follows; option 4 is [show_history] itself. *)

Module Shell.

Definition generated_prefix : str :=
  [10%N; 0x1F511%N] ++ lit " Generated Passphrase: ".

Definition word_count_rejected : str :=
  [0x2717%N] ++ lit " Word count must be between 3 and 6".

Definition passphrase_option (word_count : Z) : M str :=
  if (3 <=? word_count) && (word_count <=? 6)
  then
    passphrase <- PasswordGenerator.generate_passphrase word_count ;;
    ret (generated_prefix ++ passphrase)
  else ret word_count_rejected.

(** [str(n)] for an integer. *)
Definition str_of_int (n : Z) : str :=
  if n <? 0 then lit "-" ++ str_of_nat (Z.to_nat (- n))
  else str_of_nat (Z.to_nat n).

(** The line [f"\nStrength: {result['strength']} (Score: {result['score']}/6)"]. *)
Definition strength_line (result : PasswordGenerator.StrengthReport) : str :=
  [10%N] ++ lit "Strength: " ++ PasswordGenerator.strength result
  ++ lit " (Score: " ++ str_of_int (PasswordGenerator.score result)
  ++ lit "/6)".

Definition password_prefix : str :=
  [10%N; 0x1F511%N] ++ lit " Generated Password: ".

(** Option 1 of the menu, once the six inputs are read: whatever
    [generate_password] returns is printed as the password and passed to
    [check_strength].  The value returned is the list of the texts printed. *)
Definition password_option (U : PasswordGenerator.UnicodeData)
    (length : Z)
    (use_upper use_lower use_digits use_symbols exclude_ambiguous : bool)
  : M (list str) :=
  password <- PasswordGenerator.generate_password length use_upper use_lower
                use_digits use_symbols exclude_ambiguous ;;
  let result := PasswordGenerator.check_strength U password in
  ret [password_prefix ++ password; strength_line result].

End Shell.

(** ** Vocabulary of the statements

    The four classes, which flag enables each, the characters the
    [exclude_ambiguous] branch of its block deletes, and the alphabet its
    block draws from. *)

Import PasswordGenerator.

Inductive CharacterClass : Type := Lowercase | Uppercase | Digit | Symbol.

Record Config : Type := mkConfig {
  cfg_length : Z;
  use_upper : bool;
  use_lower : bool;
  use_digits : bool;
  use_symbols : bool;
  exclude_ambiguous : bool
}.

Definition run_generate (cfg : Config) : M str :=
  generate_password (cfg_length cfg) (use_upper cfg) (use_lower cfg)
    (use_digits cfg) (use_symbols cfg) (exclude_ambiguous cfg).

Definition enabled (cfg : Config) (cls : CharacterClass) : bool :=
  match cls with
  | Lowercase => use_lower cfg
  | Uppercase => use_upper cfg
  | Digit => use_digits cfg
  | Symbol => use_symbols cfg
  end.

Definition base_alphabet (cls : CharacterClass) : str :=
  match cls with
  | Lowercase => lowercase
  | Uppercase => uppercase
  | Digit => digits
  | Symbol => symbols
  end.

Definition ambiguous_subset (cls : CharacterClass) : list char :=
  match cls with
  | Lowercase => [ch "l"; ch "o"]
  | Uppercase => [ch "I"; ch "O"]
  | Digit => [ch "0"; ch "1"]
  | Symbol => []
  end.

Definition class_chars (cls : CharacterClass) (exclude : bool) : str :=
  match cls with
  | Lowercase => lower_chars exclude
  | Uppercase => upper_chars exclude
  | Digit => digit_chars exclude
  | Symbol => symbols
  end.

Definition all_classes : list CharacterClass :=
  [Lowercase; Uppercase; Digit; Symbol].

(** [k], the number of enabled classes. *)
Definition enabled_count (cfg : Config) : nat :=
  List.length (List.filter (enabled cfg) all_classes).

(** [char_pool] once the four blocks have run. *)
Definition pool_of (cfg : Config) : str :=
  List.concat
    (List.map (fun cls => class_chars cls (exclude_ambiguous cfg))
              (List.filter (enabled cfg) all_classes)).

Definition valid_config (cfg : Config) : Prop :=
  4 <= cfg_length cfg /\
  Z.of_nat (enabled_count cfg) <= cfg_length cfg /\
  (1 <= enabled_count cfg)%nat.

(** A call consumed random draws and did nothing else. *)
Definition drew_only (w w' : World) : Prop :=
  secure w' = secure w /\ twister w' = twister w /\ history w' = history w.

(** The characters one block appends to [required_chars]. *)
Definition picked (use : bool) (chars : str) (l : list char) : Prop :=
  if use then exists c, l = [c] /\ c ∈ chars else l = [].

(** The shape of a generated password: one character picked per enabled
    class, then filler from the pool, all of it rearranged. *)
Definition composed (cfg : Config) (pw : str) : Prop :=
  exists required filler : list char,
    Forall2 (fun c cls => c ∈ class_chars cls (exclude_ambiguous cfg))
            required (List.filter (enabled cfg) all_classes) /\
    Forall (fun c => c ∈ pool_of cfg) filler /\
    Z.of_nat (length required + length filler) = cfg_length cfg /\
    pw ≡ₚ required ++ filler.

(** Every character a class can contribute. *)
Definition printable : str := lowercase ++ uppercase ++ digits ++ symbols.

(** A call failed: it returned one of the error strings or raised. *)
Definition failed (r : outcome str) : Prop :=
  r = Returned length_error \/ r = Returned no_class_error \/
  exists e, r = Raised e.

(** ** Vocabulary of the passphrase statements *)

(** The body of the comprehension in [generate_passphrase]. *)
Definition pick_word : M str :=
  w <- Secrets.choice words ;; ret (capitalize w).

Definition from_word_list (x : str) : Prop :=
  exists word, word ∈ words /\ x = capitalize word.

Definition lower_letter (c : char) : bool :=
  ((ch "a" <=? c) && (c <=? ch "z"))%N.
Definition upper_letter (c : char) : bool :=
  ((ch "A" <=? c) && (c <=? ch "Z"))%N.
Definition decimal_digit (c : char) : bool :=
  ((ch "0" <=? c) && (c <=? ch "9"))%N.

(** An upper-case letter followed by lower-case letters only. *)
Definition capitalized (x : str) : bool :=
  match x with
  | [] => false
  | c :: rest => upper_letter c && List.forallb lower_letter rest
  end.

(** The shape the specification gives a passphrase of [n] words: the words,
    hyphen-joined, then exactly two digits. *)
Definition two_digit_passphrase (n : nat) (pp : str) : Prop :=
  exists (ws : list str) (d1 d2 : char),
    length ws = n /\
    Forall from_word_list ws /\
    decimal_digit d1 = true /\ decimal_digit d2 = true /\
    pp = join (lit "-") ws ++ [d1; d2].

(** ** Vocabulary of the strength statements *)

Definition b2z (b : bool) : Z := if b then 1 else 0.

Definition length_points (s : str) : Z :=
  if 12 <=? Z.of_nat (length s) then 2
  else if 8 <=? Z.of_nat (length s) then 1 else 0.

(** The feedback a check contributes: its message when it failed. *)
Definition note (passed : bool) (msg : str) : list str :=
  if passed then [] else [msg].

(** The symbol test of the code. *)
Definition is_punctuation (c : char) : bool := char_in c PyString.punctuation.

(** A database with nothing above ASCII: no code point there is cased, a
    digit, alphanumeric or white space. *)
Definition ascii_only : UnicodeData :=
  mkUnicodeData (fun _ => false) (fun _ => false) (fun _ => false)
                (fun _ => false) (fun _ => false).

Section SpecifiedStrength.

Context (U : UnicodeData).

(** [str.isalnum] and [str.isspace] on one character. *)
Definition isalnum (c : char) : bool :=
  if is_ascii c
  then lower_letter c || upper_letter c || decimal_digit c
  else ud_alnum U c.

Definition isspace (c : char) : bool :=
  if is_ascii c
  then ((9 <=? c) && (c <=? 13) || (28 <=? c) && (c <=? 32))%N
  else ud_space U c.

(** The symbol test as the specification words it: any character that is
    neither alphanumeric nor white space. *)
Definition spec_is_symbol (c : char) : bool :=
  negb (isalnum c) && negb (isspace c).

(** The score as the specification words it. *)
Definition spec_score (s : str) : Z :=
  length_points s
  + b2z (List.existsb (islower U) s)
  + b2z (List.existsb (isupper U) s)
  + b2z (List.existsb (isdigit U) s)
  + b2z (List.existsb spec_is_symbol s).

End SpecifiedStrength.

(** The printable ASCII characters, space to tilde. *)
Definition printable_ascii (c : char) : bool := ((32 <=? c) && (c <=? 126))%N.

(** ** Vocabulary of the further statements *)

(** The test [check_strength] applies for each class. *)
Definition kind_test (U : UnicodeData) (cls : CharacterClass) (c : char)
  : bool :=
  match cls with
  | Lowercase => islower U c
  | Uppercase => isupper U c
  | Digit => isdigit U c
  | Symbol => is_punctuation c
  end.

Definition same_class (a b : CharacterClass) : bool :=
  match a, b with
  | Lowercase, Lowercase | Uppercase, Uppercase
  | Digit, Digit | Symbol, Symbol => true
  | _, _ => false
  end.

(** The length points of [check_strength], as a function of the length. *)
Definition points_for_length (len : Z) : Z :=
  if 12 <=? len then 2 else if 8 <=? len then 1 else 0.

(** The three texts [show_history] prints before the entries, and the one
    it prints after them. *)
Definition history_banner : list str :=
  [ [10%N] ++ repeat_char (ch "=") 60;
    center (lit "PASSWORD HISTORY") 60;
    repeat_char (ch "=") 60 ].

Definition history_footer : str := [10%N] ++ repeat_char (ch "=") 60.

(** Option 1 of the menu on a configuration. *)
Definition run_password_option (U : UnicodeData) (cfg : Config)
  : M (list str) :=
  Shell.password_option U (cfg_length cfg) (use_upper cfg) (use_lower cfg)
    (use_digits cfg) (use_symbols cfg) (exclude_ambiguous cfg).

(** A call made [s] draws from the secure source and [t] from the Twister,
    and did nothing else. *)
Definition stepped (s t : nat) (w w' : World) : Prop :=
  drew_only w w' /\
  secure_pos w' = (secure_pos w + s)%nat /\
  twister_pos w' = (twister_pos w + t)%nat.

(** How many characters of a string pass a test. *)
Definition count_of (p : char -> bool) (s : str) : nat :=
  length (List.filter p s).

(** A letter, a digit or the hyphen: the characters of a passphrase. *)
Definition passphrase_char (c : char) : bool :=
  lower_letter c || upper_letter c || decimal_digit c || N.eqb c (ch "-").

(** The visible ASCII characters, [!] to [~]: no blank, no control
    character, nothing above ASCII. *)
Definition visible_ascii (c : char) : bool := ((33 <=? c) && (c <=? 126))%N.

(** The sum of the lengths of the parts. *)
Definition total_length (parts : list str) : nat :=
  List.fold_right (fun p n => (length p + n)%nat) 0%nat parts.

(** ** Sample inputs *)

(** [generate_password(4, True, True, True, True, False)] and
    [generate_password(12, True, True, True, True, True)]. *)
Definition four_of_each : Config := mkConfig 4 true true true true false.
Definition unambiguous_twelve : Config := mkConfig 12 true true true true true.

(** [generate_password(8, True, True, False, False, False)]: letters only. *)
Definition letters_only : Config := mkConfig 8 true true false false false.

(** A world whose two generators always answer with their least value. *)
Definition still_world : World :=
  mkWorld (fun _ => 0%nat) 0 (fun _ => 0%nat) 0 [].

(** The same secure stream, with a Twister whose answers leave every
    position of a four-element list where it is. *)
Definition other_twister_world : World :=
  mkWorld (fun _ => 0%nat) 0 (fun i => (3 - i)%nat) 0 [].

(** A secure stream that always answers seven. *)
Definition sevens_world : World :=
  mkWorld (fun _ => 7%nat) 0 (fun _ => 0%nat) 0 [].

(** ** Calls that return *)

Section Calls.

Lemma drew_only_refl w : drew_only w w.
Proof. by unfold drew_only. Qed.

Lemma drew_only_trans w1 w2 w3 :
  drew_only w1 w2 -> drew_only w2 w3 -> drew_only w1 w3.
Proof.
  unfold drew_only. intros (-> & -> & ->) (-> & -> & ->). done.
Qed.

Lemma bind_returned {A B} (m : M A) (f : A -> M B) w a w' :
  m w = (Returned a, w') -> bind m f w = f a w'.
Proof. unfold bind. by intros ->. Qed.

Lemma bind_raised {A B} (m : M A) (f : A -> M B) w e w' :
  m w = (Raised e, w') -> bind m f w = (Raised e, w').
Proof. unfold bind. by intros ->. Qed.

Lemma choice_returns {A} (seq : list A) w :
  seq <> [] ->
  exists a w', Secrets.choice seq w = (Returned a, w') /\
               a ∈ seq /\ drew_only w w'.
Proof.
  intros Hne. destruct seq as [|a0 seq']; [done|].
  set (seq := a0 :: seq') in *.
  set (i := (secure w (secure_pos w) mod length seq)%nat).
  assert (Hi : (i < length seq)%nat).
  { apply Nat.mod_upper_bound. subst seq. simpl. lia. }
  destruct (lookup_lt_is_Some_2 seq i Hi) as [a Ha].
  exists a. eexists. split; [|split].
  - change (Secrets.choice seq w)
      with (bind (Secrets.next_draw (length seq))
                 (fun i => match seq !! i with
                           | Some a => ret a
                           | None => raise IndexError
                           end) w).
    erewrite bind_returned by reflexivity.
    fold i. rewrite Ha. reflexivity.
  - by eapply list_elem_of_lookup_2.
  - by unfold drew_only.
Qed.

Lemma replicateM_returns {A} (P : A -> Prop) (m : M A) n :
  (forall w, exists a w', m w = (Returned a, w') /\ P a /\ drew_only w w') ->
  forall w, exists l w',
    replicateM n m w = (Returned l, w') /\
    length l = n /\ Forall P l /\ drew_only w w'.
Proof.
  intros Hm. induction n as [|n IH]; intros w.
  - exists [], w. repeat split; auto using drew_only_refl.
  - destruct (Hm w) as (a & w1 & Ha & HP & H1).
    destruct (IH w1) as (l & w2 & Hl & Hlen & HF & H2).
    exists (a :: l), w2. split; [|split; [|split]].
    + simpl. erewrite bind_returned by exact Ha.
      erewrite bind_returned by exact Hl. reflexivity.
    + simpl. by rewrite Hlen.
    + by constructor.
    + by eapply drew_only_trans.
Qed.

Lemma shuffle_from_returns {A} i (x : list A) w :
  (i < length x \/ i = 0)%nat ->
  exists x' w', Random.shuffle_from i x w = (Returned x', w') /\
                x' ≡ₚ x /\ drew_only w w'.
Proof.
  revert x w. induction i as [|i IH]; intros x w Hi.
  - exists x, w. repeat split; auto.
  - assert (Hlt : (S i < length x)%nat) by lia.
    set (j := (twister w (twister_pos w) mod S (S i))%nat).
    assert (Hj : (j < length x)%nat).
    { pose proof (Nat.mod_upper_bound (twister w (twister_pos w)) (S (S i))).
      subst j. lia. }
    destruct (lookup_lt_is_Some_2 x (S i) Hlt) as [a Ha].
    destruct (lookup_lt_is_Some_2 x j Hj) as [b Hb].
    set (x1 := <[j:=a]> (<[S i:=b]> x)).
    assert (Hperm : x1 ≡ₚ x) by (by apply Permutation_insert_swap).
    set (w1 := mkWorld (secure w) (secure_pos w) (twister w)
                       (S (twister_pos w)) (history w)).
    destruct (IH x1 w1) as (x' & w' & Hrun & Hp & Hd).
    { left. rewrite (Permutation_length Hperm). lia. }
    exists x', w'. split; [|split].
    + cbn [Random.shuffle_from].
      erewrite bind_returned by reflexivity. fold j.
      unfold Random.swap_items. rewrite Ha, Hb.
      erewrite bind_returned by reflexivity. exact Hrun.
    + by rewrite Hp.
    + eapply drew_only_trans; [|exact Hd]. by unfold drew_only.
Qed.

Lemma shuffle_returns {A} (x : list A) w :
  exists x' w', Random.shuffle x w = (Returned x', w') /\
                x' ≡ₚ x /\ drew_only w w'.
Proof. apply shuffle_from_returns. lia. Qed.

End Calls.

(** ** What a run of [generate_password] on a valid configuration produces *)

Section GeneratePassword.

Lemma class_block_returns (use : bool) chars locals w :
  chars <> [] ->
  exists l w',
    (if use then take_class chars locals else ret locals) w
      = (Returned (fst locals ++ (if use then chars else []),
                   snd locals ++ l), w') /\
    picked use chars l /\ drew_only w w'.
Proof.
  intros Hne. destruct use.
  - destruct (choice_returns chars w Hne) as (c & w' & Hc & Hin & Hd).
    exists [c], w'. split; [|split]; [|by exists c|done].
    unfold take_class. erewrite bind_returned by exact Hc. reflexivity.
  - exists [], w. rewrite !app_nil_r. destruct locals.
    split; [done|]. split; [done|apply drew_only_refl].
Qed.

Lemma class_chars_nonempty cls ex : class_chars cls ex <> [].
Proof. by destruct cls, ex. Qed.

Lemma class_chars_sizes :
  List.map (fun cls => length (class_chars cls true)) all_classes
    = [24; 24; 8; 32]%nat /\
  List.map (fun cls => length (class_chars cls false)) all_classes
    = [26; 26; 10; 32]%nat.
Proof. split; reflexivity. Qed.

Lemma enabled_count_le cfg : (enabled_count cfg <= 4)%nat.
Proof.
  unfold enabled_count.
  etrans; [apply List.filter_length_le|]. simpl. lia.
Qed.

Lemma generate_password_returns cfg w :
  valid_config cfg ->
  exists pw w',
    run_generate cfg w = (Returned pw, w') /\
    composed cfg pw /\
    secure w' = secure w /\ twister w' = twister w /\
    history w' = history w ++ [pw].
Proof.
  intros (H4 & Hk & H1).
  pose proof (enabled_count_le cfg) as Hk4.
  destruct cfg as [len uu ul ud us ex].
  unfold run_generate, generate_password.
  cbn [cfg_length use_upper use_lower use_digits use_symbols
       exclude_ambiguous] in *.
  set (cfg := mkConfig len uu ul ud us ex) in *.
  rewrite (proj2 (Z.ltb_ge len 4)) by lia.
  destruct (class_block_returns ul (lower_chars ex) ([], []) w)
    as (pl & w1 & E1 & P1 & D1); [apply (class_chars_nonempty Lowercase ex)|].
  erewrite bind_returned by exact E1. clear E1.
  match goal with |- context [take_class (upper_chars ex) ?loc] =>
    destruct (class_block_returns uu (upper_chars ex) loc w1)
      as (pu & w2 & E2 & P2 & D2); [apply (class_chars_nonempty Uppercase ex)|]
  end.
  erewrite bind_returned by exact E2. clear E2.
  match goal with |- context [take_class (digit_chars ex) ?loc] =>
    destruct (class_block_returns ud (digit_chars ex) loc w2)
      as (pd & w3 & E3 & P3 & D3); [apply (class_chars_nonempty Digit ex)|]
  end.
  erewrite bind_returned by exact E3. clear E3.
  match goal with |- context [take_class symbols ?loc] =>
    destruct (class_block_returns us symbols loc w3)
      as (ps & w4 & E4 & P4 & D4); [apply (class_chars_nonempty Symbol ex)|]
  end.
  erewrite bind_returned by exact E4. clear E4.
  cbn [fst snd] in *.
  match goal with |- context [Secrets.choice ?p] =>
    assert (Hpool : p = pool_of cfg)
      by (subst cfg; unfold pool_of, all_classes; destruct uu, ul, ud, us;
          cbn [List.filter List.map List.concat enabled class_chars app
               use_upper use_lower use_digits use_symbols exclude_ambiguous];
          by rewrite <- ?app_assoc, ?app_nil_r);
    rewrite !Hpool; clear Hpool
  end.
  match goal with |- context [Random.shuffle (?r ++ _)] =>
    set (required := r) in *
  end.
  assert (Hreq : Forall2 (fun c cls => c ∈ class_chars cls ex) required
                         (List.filter (enabled cfg) all_classes)).
  { subst required cfg. unfold picked, all_classes in *.
    destruct uu, ul, ud, us; simpl in *;
      repeat match goal with
             | H : exists _, _ |- _ => destruct H as (? & -> & ?)
             | H : _ = [] |- _ => rewrite H
             end; simpl;
      repeat (constructor; [assumption|]); constructor. }
  assert (Hklen : length required = enabled_count cfg).
  { unfold enabled_count. by apply Forall2_length in Hreq. }
  clearbody required.
  destruct (pool_of cfg) as [|c0 pool'] eqn:Hpool.
  { exfalso. subst cfg. unfold enabled_count, pool_of, all_classes in *.
    destruct uu, ul, ud, us, ex; simpl in *; (lia || discriminate). }
  rewrite <- Hpool.
  destruct (replicateM_returns (fun c => c ∈ pool_of cfg)
              (Secrets.choice (pool_of cfg))
              (Z.to_nat (len - Z.of_nat (length required)))
              (fun w => choice_returns (pool_of cfg) w
                          ltac:(rewrite Hpool; discriminate)) w4)
    as (filler & w5 & E5 & Hflen & Hfill & D5).
  erewrite bind_returned by exact E5. clear E5.
  destruct (shuffle_returns (required ++ filler) w5)
    as (pw & w6 & E6 & Hperm & D6).
  erewrite bind_returned by exact E6. clear E6.
  erewrite bind_returned by reflexivity.
  exists pw. eexists. split; [reflexivity|].
  assert (D : drew_only w w6)
    by eauto 10 using drew_only_trans.
  destruct D as (Ds & Dt & Dh). cbn [secure twister history].
  split; [|by rewrite Ds, Dt, Dh].
  exists required, filler. repeat split; [done|done| |done].
  rewrite Hflen. cbn [cfg_length cfg]. lia.
Qed.

End GeneratePassword.

(** ** The two early returns *)

Section EarlyReturns.

Lemma generate_password_short cfg w :
  cfg_length cfg < 4 ->
  run_generate cfg w = (Returned length_error, w).
Proof.
  intros Hlt. unfold run_generate, generate_password.
  by rewrite (proj2 (Z.ltb_lt (cfg_length cfg) 4)).
Qed.

Lemma generate_password_no_class cfg w :
  4 <= cfg_length cfg ->
  enabled_count cfg = 0%nat ->
  run_generate cfg w = (Returned no_class_error, w).
Proof.
  intros Hge Hk. unfold run_generate, generate_password.
  rewrite (proj2 (Z.ltb_ge (cfg_length cfg) 4)) by lia.
  destruct cfg as [len [] [] [] [] ex]; try discriminate Hk.
  reflexivity.
Qed.

Lemma enabled_count_pos cfg cls :
  enabled cfg cls = true -> (1 <= enabled_count cfg)%nat.
Proof.
  unfold enabled_count, all_classes.
  destruct cfg as [len [] [] [] [] ex], cls; simpl; intros; (lia || done).
Qed.

Lemma valid_config_iff cfg :
  valid_config cfg <-> 4 <= cfg_length cfg /\ (1 <= enabled_count cfg)%nat.
Proof.
  unfold valid_config. pose proof (enabled_count_le cfg). lia.
Qed.

End EarlyReturns.

(** ** Properties of a composed password *)

Section Composed.

Lemma class_chars_base cls ex c :
  c ∈ class_chars cls ex -> c ∈ base_alphabet cls.
Proof.
  destruct cls, ex; cbn [class_chars base_alphabet];
    unfold lower_chars, upper_chars, digit_chars, remove_char;
    cbv beta iota zeta; try done;
    rewrite !list_elem_of_In, !List.filter_In; tauto.
Qed.

Lemma char_in_spec c s : char_in c s = true <-> c ∈ s.
Proof.
  unfold char_in. rewrite List.existsb_exists, list_elem_of_In.
  split.
  - intros (x & Hin & Heq). apply N.eqb_eq in Heq. by subst.
  - intros Hin. exists c. split; [done|apply N.eqb_refl].
Qed.

Lemma char_in_forallb (p : char -> bool) (s : str) c :
  List.forallb p s = true -> c ∈ s -> p c = true.
Proof.
  rewrite List.forallb_forall, list_elem_of_In. auto.
Qed.

Lemma class_chars_unambiguous cls c :
  c ∈ class_chars cls true ->
  forall cls', c ∉ ambiguous_subset cls'.
Proof.
  intros Hc cls' Hamb. apply char_in_spec in Hamb.
  assert (Hall : List.forallb
                   (fun x => negb (char_in x (ambiguous_subset cls')))
                   (class_chars cls true) = true)
    by (by destruct cls, cls'; vm_compute).
  pose proof (char_in_forallb _ _ _ Hall Hc) as Hn.
  cbv beta in Hn. by rewrite Hamb in Hn.
Qed.

Lemma pool_of_class cfg c :
  c ∈ pool_of cfg ->
  exists cls, enabled cfg cls = true /\
              c ∈ class_chars cls (exclude_ambiguous cfg).
Proof.
  unfold pool_of. rewrite list_elem_of_In, List.in_concat.
  intros (chars & Hin & Hc). apply List.in_map_iff in Hin as (cls & <- & Hf).
  apply List.filter_In in Hf as [_ Hen].
  exists cls. by rewrite list_elem_of_In.
Qed.

Lemma composed_chars cfg pw c :
  composed cfg pw -> c ∈ pw ->
  exists cls, enabled cfg cls = true /\
              c ∈ class_chars cls (exclude_ambiguous cfg).
Proof.
  intros (required & filler & Hreq & Hfill & _ & Hperm) Hc.
  rewrite Hperm in Hc. apply elem_of_app in Hc as [Hc|Hc].
  - apply list_elem_of_lookup in Hc as [i Hi].
    destruct (Forall2_lookup_l _ _ _ _ _ Hreq Hi) as (cls & Hcls & Hin).
    exists cls. split; [|done].
    apply list_elem_of_lookup_2 in Hcls.
    rewrite list_elem_of_In in Hcls. by apply List.filter_In in Hcls as [_ ?].
  - apply pool_of_class. by eapply Forall_forall in Hfill.
Qed.

Lemma composed_covers cfg pw cls :
  composed cfg pw -> enabled cfg cls = true ->
  exists c, c ∈ pw /\ c ∈ class_chars cls (exclude_ambiguous cfg).
Proof.
  intros (required & filler & Hreq & _ & _ & Hperm) Hen.
  assert (Hcls : cls ∈ List.filter (enabled cfg) all_classes).
  { rewrite list_elem_of_In. apply List.filter_In. split; [|done].
    destruct cls; simpl; tauto. }
  apply list_elem_of_lookup in Hcls as [i Hi].
  destruct (Forall2_lookup_r _ _ _ _ _ Hreq Hi) as (c & Hc & Hin).
  exists c. split; [|done].
  rewrite Hperm. apply elem_of_app. left. by eapply list_elem_of_lookup_2.
Qed.

Lemma composed_length cfg pw :
  composed cfg pw -> Z.of_nat (length pw) = cfg_length cfg.
Proof.
  intros (required & filler & _ & _ & Hlen & Hperm).
  by rewrite (Permutation_length Hperm), length_app.
Qed.

Lemma composed_printable cfg pw :
  composed cfg pw -> Forall (fun c => c ∈ printable) pw.
Proof.
  intros Hc. apply Forall_forall. intros c Hin.
  destruct (composed_chars cfg pw c Hc Hin) as (cls & _ & Hcls).
  apply class_chars_base in Hcls. unfold printable.
  rewrite !elem_of_app. destruct cls; simpl in Hcls; tauto.
Qed.

(** Both error strings contain a space, which no class contains; so a
    composed password is never mistaken for one. *)
Lemma printable_no_space : ch " " ∉ printable.
Proof. intros H. apply char_in_spec in H. by vm_compute in H. Qed.

Lemma composed_not_error cfg pw :
  composed cfg pw -> pw <> length_error /\ pw <> no_class_error.
Proof.
  intros Hc. pose proof (composed_printable cfg pw Hc) as Hp.
  rewrite Forall_forall in Hp.
  split; intros ->; apply printable_no_space, Hp; by apply char_in_spec.
Qed.

End Composed.

(** ** Theorems on [generate_password] *)

(** C1: on every valid configuration [generate_password] returns a password
    that holds, for each enabled class, at least one character of that
    class's alphabet. *)
Theorem password_covers_enabled_classes cfg w :
  valid_config cfg ->
  exists pw w',
    run_generate cfg w = (Returned pw, w') /\
    forall cls, enabled cfg cls = true ->
      exists c, c ∈ pw /\ c ∈ base_alphabet cls.
Proof.
  intros Hv.
  destruct (generate_password_returns cfg w Hv) as (pw & w' & Hrun & Hc & _).
  exists pw, w'. split; [done|]. intros cls Hen.
  destruct (composed_covers cfg pw cls Hc Hen) as (c & Hin & Hcls).
  exists c. eauto using class_chars_base.
Qed.

Lemma password_covers_enabled_classes_witness :
  valid_config four_of_each /\
  exists pw w',
    run_generate four_of_each still_world = (Returned pw, w') /\
    forall cls, enabled four_of_each cls = true ->
      exists c, c ∈ pw /\ c ∈ base_alphabet cls.
Proof.
  assert (Hv : valid_config four_of_each)
    by (unfold valid_config; cbn; lia).
  split; [exact Hv|].
  exact (password_covers_enabled_classes four_of_each still_world Hv).
Defined.

(** C2: on every valid configuration [generate_password] returns a password
    of exactly the requested length. *)
Theorem password_has_requested_length cfg w :
  valid_config cfg ->
  exists pw w',
    run_generate cfg w = (Returned pw, w') /\
    Z.of_nat (length pw) = cfg_length cfg.
Proof.
  intros Hv.
  destruct (generate_password_returns cfg w Hv) as (pw & w' & Hrun & Hc & _).
  exists pw, w'. eauto using composed_length.
Qed.

Lemma password_has_requested_length_witness :
  valid_config unambiguous_twelve /\
  exists pw w',
    run_generate unambiguous_twelve still_world = (Returned pw, w') /\
    Z.of_nat (length pw) = cfg_length unambiguous_twelve.
Proof.
  assert (Hv : valid_config unambiguous_twelve)
    by (unfold valid_config; cbn; lia).
  split; [exact Hv|].
  exact (password_has_requested_length unambiguous_twelve still_world Hv).
Defined.

(** C3 (the code departs from it): the final [random.shuffle] reads the
    Mersenne Twister, not the secure source.  Two runs of the same call on
    the same secure stream, which differ only in the Twister, return
    different passwords. *)
Theorem shuffle_reads_the_twister :
  secure still_world = secure other_twister_world /\
  secure_pos still_world = secure_pos other_twister_world /\
  history still_world = history other_twister_world /\
  fst (run_generate four_of_each still_world) = Returned (lit "A0!a") /\
  fst (run_generate four_of_each other_twister_world)
    = Returned (lit "aA0!").
Proof. repeat split; reflexivity. Qed.

(** C4: [generate_password] returns the length error exactly when the length
    is below four or below the number of enabled classes, the no-class error
    exactly when no class is enabled and the length is acceptable, and on a
    configuration meeting both conditions a password that is neither error
    string; it never raises. *)
Theorem generate_password_error_cases cfg w :
  (fst (run_generate cfg w) = Returned length_error <->
     (cfg_length cfg < 4 \/
      cfg_length cfg < Z.of_nat (enabled_count cfg))) /\
  (fst (run_generate cfg w) = Returned no_class_error <->
     (enabled_count cfg = 0%nat /\ 4 <= cfg_length cfg)) /\
  (valid_config cfg <->
     exists pw, fst (run_generate cfg w) = Returned pw /\
                pw <> length_error /\ pw <> no_class_error /\
                composed cfg pw) /\
  (forall e, fst (run_generate cfg w) <> Raised e).
Proof.
  pose proof (enabled_count_le cfg) as Hle.
  assert (Hne : length_error <> no_class_error) by discriminate.
  assert (Hinj : forall a b : str, Returned a = Returned b -> a = b)
    by (intros a b Heq; congruence).
  destruct (Z.lt_ge_cases (cfg_length cfg) 4) as [Hlt|Hge].
  { rewrite (generate_password_short cfg w Hlt). cbn [fst].
    split; [|split; [|split]].
    - split; [intros _; lia|done].
    - split; [intros Heq%Hinj; by destruct Hne|lia].
    - split; [unfold valid_config; lia|].
      intros (pw & Heq%Hinj & Hx & _). by destruct Hx.
    - done. }
  destruct (Nat.eq_dec (enabled_count cfg) 0%nat) as [H0|Hpos].
  { rewrite (generate_password_no_class cfg w Hge H0). cbn [fst].
    split; [|split; [|split]].
    - split; [intros Heq%Hinj; by destruct Hne|lia].
    - split; [done|done].
    - split; [unfold valid_config; lia|].
      intros (pw & Heq%Hinj & _ & Hx & _). by destruct Hx.
    - done. }
  assert (Hv : valid_config cfg) by (apply valid_config_iff; lia).
  destruct (generate_password_returns cfg w Hv) as (pw & w' & Hrun & Hc & _).
  destruct (composed_not_error cfg pw Hc) as [Hn1 Hn2].
  rewrite Hrun. cbn [fst].
  split; [|split; [|split]].
  - split; [intros Heq%Hinj; by destruct Hn1|lia].
  - split; [intros Heq%Hinj; by destruct Hn2|lia].
  - split; [intros _; by exists pw|done].
  - done.
Qed.

(** C6: with [exclude_ambiguous] set, the password returned on a valid
    configuration holds no character of the ambiguous subset of any enabled
    class; the same is true of the classes that are not enabled. *)
Theorem password_excludes_ambiguous cfg w :
  valid_config cfg ->
  exclude_ambiguous cfg = true ->
  exists pw w',
    run_generate cfg w = (Returned pw, w') /\
    (forall cls, enabled cfg cls = true ->
       forall c, c ∈ ambiguous_subset cls -> c ∉ pw) /\
    (forall c, c ∈ lit "loIO01" -> c ∉ pw) /\
    ambiguous_subset Symbol = [].
Proof.
  intros Hv Hex.
  destruct (generate_password_returns cfg w Hv) as (pw & w' & Hrun & Hc & _).
  exists pw, w'. split; [done|].
  assert (Hno : forall cls c, c ∈ ambiguous_subset cls -> c ∉ pw).
  { intros cls c Hamb Hin.
    destruct (composed_chars cfg pw c Hc Hin) as (cls' & _ & Hcls).
    rewrite Hex in Hcls. by eapply class_chars_unambiguous. }
  split; [eauto|]. split; [|done].
  intros c Hin. apply char_in_spec in Hin.
  assert (Hcase : c ∈ ambiguous_subset Lowercase \/
                  c ∈ ambiguous_subset Uppercase \/
                  c ∈ ambiguous_subset Digit).
  { rewrite <- !char_in_spec. unfold char_in in *. simpl in *.
    repeat (apply orb_prop in Hin as [Hin|Hin]; [rewrite Hin|]);
      rewrite ?orb_true_r; auto. done. }
  destruct Hcase as [H|[H|H]]; eauto.
Qed.

Lemma password_excludes_ambiguous_witness :
  valid_config unambiguous_twelve /\
  exclude_ambiguous unambiguous_twelve = true /\
  exists pw w',
    run_generate unambiguous_twelve still_world = (Returned pw, w') /\
    (forall cls, enabled unambiguous_twelve cls = true ->
       forall c, c ∈ ambiguous_subset cls -> c ∉ pw) /\
    (forall c, c ∈ lit "loIO01" -> c ∉ pw) /\
    ambiguous_subset Symbol = [].
Proof.
  assert (Hv : valid_config unambiguous_twelve)
    by (unfold valid_config; cbn; lia).
  split; [exact Hv|]. split; [reflexivity|].
  exact (password_excludes_ambiguous unambiguous_twelve still_world
           Hv eq_refl).
Defined.

(** C10: every class keeps a non-empty alphabet once its ambiguous subset is
    removed (24, 24, 8 and 32 characters); so with a length of at least four
    and a class enabled, every draw of [generate_password] is from a
    non-empty sequence, neither error string is returned, nothing is raised,
    and a password is returned. *)
Theorem generation_never_starves cfg w :
  4 <= cfg_length cfg ->
  (1 <= enabled_count cfg)%nat ->
  (forall cls,
     class_chars cls true
       = List.filter (fun c => negb (char_in c (ambiguous_subset cls)))
                     (base_alphabet cls)) /\
  List.map (fun cls => length (class_chars cls true)) all_classes
    = [24; 24; 8; 32]%nat /\
  (forall cls, class_chars cls (exclude_ambiguous cfg) <> []) /\
  pool_of cfg <> [] /\
  exists pw w',
    run_generate cfg w = (Returned pw, w') /\
    pw <> length_error /\ pw <> no_class_error /\
    composed cfg pw.
Proof.
  intros H4 H1.
  split; [intros []; vm_compute; reflexivity|]. split; [reflexivity|].
  split; [intros cls; apply class_chars_nonempty|].
  assert (Hv : valid_config cfg) by (by apply valid_config_iff).
  destruct (generate_password_returns cfg w Hv) as (pw & w' & Hrun & Hc & _).
  split.
  - clear -H1. destruct cfg as [len [] [] [] [] []];
      try (vm_compute; discriminate); vm_compute in H1; lia.
  - exists pw, w'. destruct (composed_not_error cfg pw Hc). done.
Qed.

Lemma generation_never_starves_witness :
  4 <= cfg_length unambiguous_twelve /\
  (1 <= enabled_count unambiguous_twelve)%nat /\
  pool_of unambiguous_twelve <> [] /\
  exists pw w',
    run_generate unambiguous_twelve still_world = (Returned pw, w') /\
    pw <> length_error /\ pw <> no_class_error /\
    composed unambiguous_twelve pw.
Proof.
  assert (H4 : 4 <= cfg_length unambiguous_twelve) by (cbn; lia).
  assert (H1 : (1 <= enabled_count unambiguous_twelve)%nat) by (cbn; lia).
  split; [exact H4|]. split; [exact H1|].
  exact (proj2 (proj2 (proj2
           (generation_never_starves unambiguous_twelve still_world H4 H1)))).
Defined.

(** ** Passphrases *)

Section Passphrase.

Lemma pick_word_returns w :
  exists x w', pick_word w = (Returned x, w') /\
               from_word_list x /\ drew_only w w'.
Proof.
  destruct (choice_returns words w) as (word & w' & Hrun & Hin & Hd);
    [intros H; vm_compute in H; discriminate H|].
  exists (capitalize word), w'. split; [|split; [by exists word|done]].
  unfold pick_word. erewrite bind_returned by exact Hrun. reflexivity.
Qed.

Lemma randbelow_100_returns w :
  exists d w', Secrets.randbelow 100 w = (Returned d, w') /\
               (d < 100)%nat /\ drew_only w w'.
Proof.
  eexists. eexists. split; [reflexivity|]. split.
  - apply Nat.mod_upper_bound. discriminate.
  - by unfold drew_only.
Qed.

Lemma generate_passphrase_returns word_count w :
  exists ws d w1 w2 w',
    replicateM (Z.to_nat word_count) pick_word w = (Returned ws, w1) /\
    Secrets.randbelow 100 w1 = (Returned d, w2) /\
    generate_passphrase word_count w
      = (Returned (join (lit "-") ws ++ str_of_nat d), w') /\
    length ws = Z.to_nat word_count /\
    Forall from_word_list ws /\
    (d < 100)%nat /\
    history w' = history w ++ [join (lit "-") ws ++ str_of_nat d].
Proof.
  destruct (replicateM_returns from_word_list pick_word
              (Z.to_nat word_count) pick_word_returns w)
    as (ws & w1 & Hws & Hlen & Hall & D1).
  destruct (randbelow_100_returns w1) as (d & w2 & Hd & Hlt & D2).
  exists ws, d, w1, w2. eexists.
  split; [exact Hws|]. split; [exact Hd|]. split; [|split; [done|]].
  - unfold generate_passphrase. fold pick_word.
    erewrite bind_returned by exact Hws.
    erewrite bind_returned by exact Hd.
    erewrite bind_returned by reflexivity. reflexivity.
  - split; [done|]. split; [done|].
    cbn [history]. destruct D1 as (_ & _ & D1), D2 as (_ & _ & D2).
    by rewrite D2, D1.
Qed.

End Passphrase.

Section PassphraseFacts.

Lemma words_count : length words = 35%nat.
Proof. reflexivity. Qed.

Lemma words_capitalized x : from_word_list x -> capitalized x = true.
Proof.
  intros (word & Hin & ->).
  assert (Hall : List.forallb (fun w => capitalized (capitalize w)) words
                 = true) by (vm_compute; reflexivity).
  rewrite List.forallb_forall in Hall. apply Hall. by apply list_elem_of_In.
Qed.

Lemma suffix_digits d :
  (d < 100)%nat ->
  List.forallb decimal_digit (str_of_nat d) = true /\
  length (str_of_nat d) = (if (d <? 10)%nat then 1 else 2)%nat.
Proof.
  intros Hd.
  assert (Hall : List.forallb
            (fun n => List.forallb decimal_digit (str_of_nat n) &&
                      Nat.eqb (length (str_of_nat n))
                              (if (n <? 10)%nat then 1 else 2)%nat)
            (List.seq 0 100) = true) by (vm_compute; reflexivity).
  rewrite List.forallb_forall in Hall.
  specialize (Hall d). rewrite List.in_seq in Hall.
  specialize (Hall ltac:(lia)).
  apply andb_prop in Hall as [H1 H2]. apply Nat.eqb_eq in H2. done.
Qed.

(** [secrets.choice] returns the item at the index the secure source
    answers, and advances that source by one. *)
Lemma choice_at {A} (seq : list A) w a :
  seq !! (secure w (secure_pos w) mod length seq)%nat = Some a ->
  Secrets.choice seq w
  = (Returned a,
     mkWorld (secure w) (S (secure_pos w)) (twister w) (twister_pos w)
             (history w)).
Proof.
  intros Ha. destruct seq as [|a0 seq']; [done|].
  set (seq := a0 :: seq') in *.
  change (Secrets.choice seq w)
    with (bind (Secrets.next_draw (length seq))
               (fun i => match seq !! i with
                         | Some a => ret a
                         | None => raise IndexError
                         end) w).
  erewrite bind_returned by reflexivity. by rewrite Ha.
Qed.

(** The comprehension of [generate_passphrase], draw by draw: word [i] is
    the word at the index the secure source answers at its [i]-th next
    position, and nothing but that source's position changes. *)
Lemma pick_words_trace n w :
  exists ws,
    replicateM n pick_word w
    = (Returned ws,
       mkWorld (secure w) (secure_pos w + n) (twister w) (twister_pos w)
               (history w)) /\
    length ws = n /\
    forall i, (i < n)%nat ->
      exists word,
        words !! (secure w (secure_pos w + i) mod length words)%nat
          = Some word /\
        ws !! i = Some (capitalize word).
Proof.
  revert w. induction n as [|n IH]; intros w.
  - exists []. split; [|split; [done|intros; lia]].
    destruct w. cbn. by rewrite Nat.add_0_r.
  - assert (Hi : (secure w (secure_pos w) mod length words
                  < length words)%nat)
      by (apply Nat.mod_upper_bound; rewrite words_count; lia).
    destruct (lookup_lt_is_Some_2 words _ Hi) as [word Hword].
    pose proof (choice_at words w word Hword) as Hc.
    set (w1 := mkWorld (secure w) (S (secure_pos w)) (twister w)
                       (twister_pos w) (history w)) in *.
    assert (Hp : pick_word w = (Returned (capitalize word), w1))
      by (unfold pick_word; by erewrite bind_returned by exact Hc).
    destruct (IH w1) as (ws & Hws & Hlen & Hidx).
    subst w1. cbn [secure secure_pos twister twister_pos history] in *.
    exists (capitalize word :: ws). split; [|split].
    + cbn [replicateM]. erewrite bind_returned by exact Hp.
      erewrite bind_returned by exact Hws.
      replace (secure_pos w + S n)%nat with (S (secure_pos w) + n)%nat
        by lia.
      reflexivity.
    + cbn [length]. by rewrite Hlen.
    + intros [|i] Hlt.
      * exists word. by rewrite Nat.add_0_r.
      * destruct (Hidx i ltac:(lia)) as (word' & Hw1 & Hw2).
        exists word'.
        replace (secure_pos w + S i)%nat with (S (secure_pos w) + i)%nat
          by lia.
        done.
Qed.

End PassphraseFacts.

(** ** Theorems on the history and on passphrases *)

(** C5: a failed [generate_password] leaves the history as it was, a
    successful one appends the password once; [generate_passphrase] has no
    failing path and appends its passphrase once; a word count the menu
    rejects leaves the world untouched. *)
Theorem failure_leaves_history_unchanged cfg word_count w :
  (failed (fst (run_generate cfg w)) ->
     history (snd (run_generate cfg w)) = history w) /\
  (failed (fst (run_generate cfg w)) \/
   exists pw, fst (run_generate cfg w) = Returned pw /\
              composed cfg pw /\
              history (snd (run_generate cfg w)) = history w ++ [pw]) /\
  (exists pp w', generate_passphrase word_count w = (Returned pp, w') /\
                 history w' = history w ++ [pp]) /\
  (~ (3 <= word_count <= 6) ->
     snd (Shell.passphrase_option word_count w) = w).
Proof.
  split; [|split; [|split]].
  - destruct (Z.lt_ge_cases (cfg_length cfg) 4) as [Hlt|Hge];
      [by rewrite (generate_password_short cfg w Hlt)|].
    destruct (Nat.eq_dec (enabled_count cfg) 0%nat) as [H0|Hpos];
      [by rewrite (generate_password_no_class cfg w Hge H0)|].
    assert (Hv : valid_config cfg) by (apply valid_config_iff; lia).
    destruct (generate_password_returns cfg w Hv)
      as (pw & w' & Hrun & Hc & _).
    destruct (composed_not_error cfg pw Hc) as [Hn1 Hn2].
    rewrite Hrun. cbn [fst snd].
    intros [Hf|[Hf|[e Hf]]]; [| |discriminate Hf].
    + destruct Hn1. congruence.
    + destruct Hn2. congruence.
  - destruct (Z.lt_ge_cases (cfg_length cfg) 4) as [Hlt|Hge].
    { left. rewrite (generate_password_short cfg w Hlt). by left. }
    destruct (Nat.eq_dec (enabled_count cfg) 0%nat) as [H0|Hpos].
    { left. rewrite (generate_password_no_class cfg w Hge H0).
      right. by left. }
    assert (Hv : valid_config cfg) by (apply valid_config_iff; lia).
    destruct (generate_password_returns cfg w Hv)
      as (pw & w' & Hrun & Hc & _ & _ & Hh).
    right. exists pw. by rewrite Hrun.
  - destruct (generate_passphrase_returns word_count w)
      as (ws & d & w1 & w2 & w' & _ & _ & Hrun & _ & _ & _ & Hh).
    eauto.
  - intros Hout. unfold Shell.passphrase_option.
    destruct ((3 <=? word_count) && (word_count <=? 6)) eqn:Hin; [|done].
    apply andb_prop in Hin as [?%Z.leb_le ?%Z.leb_le]. lia.
Qed.

(** C8 (as the code has it): [generate_passphrase] checks no range and
    returns a passphrase for every integer word count; the range three to
    six is enforced by the menu, which prints the rejection and does not
    call the generator outside it, and prints the generated passphrase
    inside it. *)
Theorem word_count_guard_is_in_the_menu word_count w :
  (exists pp w', generate_passphrase word_count w = (Returned pp, w')) /\
  (word_count < 3 \/ 6 < word_count ->
     Shell.passphrase_option word_count w
       = (Returned Shell.word_count_rejected, w)) /\
  (3 <= word_count <= 6 ->
     exists pp w',
       generate_passphrase word_count w = (Returned pp, w') /\
       Shell.passphrase_option word_count w
         = (Returned (Shell.generated_prefix ++ pp), w') /\
       Shell.generated_prefix ++ pp <> Shell.word_count_rejected).
Proof.
  destruct (generate_passphrase_returns word_count w)
    as (ws & d & w1 & w2 & w' & _ & _ & Hrun & _).
  split; [eauto|]. split.
  - intros Hout. unfold Shell.passphrase_option.
    destruct ((3 <=? word_count) && (word_count <=? 6)) eqn:Hin; [|done].
    apply andb_prop in Hin as [?%Z.leb_le ?%Z.leb_le]. lia.
  - intros Hin. eexists. exists w'. split; [exact Hrun|].
    unfold Shell.passphrase_option.
    rewrite (proj2 (Z.leb_le 3 word_count)), (proj2 (Z.leb_le word_count 6))
      by lia.
    cbn [andb]. erewrite bind_returned by exact Hrun.
    split; [reflexivity|]. discriminate.
Qed.

(** C8, refuted as stated: called with seven words, [generate_passphrase]
    does not fail; it returns a seven-word passphrase and records it. *)
Lemma seven_words_are_generated :
  generate_passphrase 7 still_world
  = (Returned (lit "Alpha-Alpha-Alpha-Alpha-Alpha-Alpha-Alpha0"),
     mkWorld (secure still_world) 8 (twister still_world) 0
       [lit "Alpha-Alpha-Alpha-Alpha-Alpha-Alpha-Alpha0"]) /\
  ~ failed (fst (generate_passphrase 7 still_world)).
Proof.
  split; [reflexivity|].
  intros [H|[H|[e H]]]; vm_compute in H; discriminate H.
Qed.

(** C9 (as the code has it): for a word count from three to six the
    passphrase is that many capitalized words of the 35-word list joined by
    hyphens, followed by [str] of a [secrets.randbelow(100)] draw: decimal
    digits without padding, one digit below ten and two from ten on.  Word
    [i] is the list's word at the index the secure source answers at its
    [i]-th next position, the suffix is what that source answers at the
    position after the words, and the Twister is not read. *)
Theorem passphrase_shape word_count w :
  3 <= word_count <= 6 ->
  exists (ws : list str) (d : nat) w1 w',
    generate_passphrase word_count w
      = (Returned (join (lit "-") ws ++ str_of_nat d), w') /\
    Z.of_nat (length ws) = word_count /\
    replicateM (Z.to_nat word_count) pick_word w = (Returned ws, w1) /\
    w1 = mkWorld (secure w) (secure_pos w + Z.to_nat word_count)
                 (twister w) (twister_pos w) (history w) /\
    (forall i, (i < length ws)%nat ->
       exists word,
         words !! (secure w (secure_pos w + i) mod length words)%nat
           = Some word /\
         ws !! i = Some (capitalize word)) /\
    Forall from_word_list ws /\
    Forall (fun x => capitalized x = true) ws /\
    length words = 35%nat /\
    Secrets.randbelow 100 w1
      = (Returned d,
         mkWorld (secure w) (S (secure_pos w + Z.to_nat word_count))
                 (twister w) (twister_pos w) (history w)) /\
    d = (secure w (secure_pos w + Z.to_nat word_count) mod 100)%nat /\
    w' = mkWorld (secure w) (S (secure_pos w + Z.to_nat word_count))
                 (twister w) (twister_pos w)
                 (history w ++ [join (lit "-") ws ++ str_of_nat d]) /\
    (d < 100)%nat /\
    List.forallb decimal_digit (str_of_nat d) = true /\
    length (str_of_nat d) = (if (d <? 10)%nat then 1 else 2)%nat.
Proof.
  intros Hin.
  destruct (pick_words_trace (Z.to_nat word_count) w)
    as (ws & Hws & Hlen & Hidx).
  set (w1 := mkWorld (secure w) (secure_pos w + Z.to_nat word_count)
                     (twister w) (twister_pos w) (history w)) in *.
  set (d := (secure w (secure_pos w + Z.to_nat word_count) mod 100)%nat).
  assert (Hd : Secrets.randbelow 100 w1
               = (Returned d,
                  mkWorld (secure w) (S (secure_pos w + Z.to_nat word_count))
                          (twister w) (twister_pos w) (history w)))
    by reflexivity.
  assert (Hlt : (d < 100)%nat) by (apply Nat.mod_upper_bound; lia).
  destruct (suffix_digits d Hlt) as [Hdig Hsz].
  assert (Hall : Forall from_word_list ws).
  { apply Forall_lookup. intros i x Hx.
    destruct (Hidx i) as (word & Hword & Hi).
    - rewrite <- Hlen. by eapply lookup_lt_Some.
    - rewrite Hx in Hi. injection Hi as ->.
      exists word. split; [by eapply list_elem_of_lookup_2|done]. }
  exists ws, d, w1. eexists.
  split.
  { unfold generate_passphrase. fold pick_word.
    erewrite bind_returned by exact Hws.
    erewrite bind_returned by exact Hd.
    erewrite bind_returned by reflexivity. reflexivity. }
  split; [lia|]. split; [exact Hws|]. split; [reflexivity|].
  split; [intros i Hi; apply Hidx; lia|].
  split; [exact Hall|].
  split; [eapply Forall_impl; [exact Hall|apply words_capitalized]|].
  split; [apply words_count|].
  split; [exact Hd|]. split; [reflexivity|]. split; [reflexivity|].
  done.
Qed.

Lemma passphrase_shape_witness :
  3 <= 4 <= 6 /\
  exists (ws : list str) (d : nat) w1 w',
    generate_passphrase 4 sevens_world
      = (Returned (join (lit "-") ws ++ str_of_nat d), w') /\
    Z.of_nat (length ws) = 4 /\
    replicateM (Z.to_nat 4) pick_word sevens_world = (Returned ws, w1) /\
    w1 = mkWorld (secure sevens_world)
                 (secure_pos sevens_world + Z.to_nat 4)
                 (twister sevens_world) (twister_pos sevens_world)
                 (history sevens_world) /\
    (forall i, (i < length ws)%nat ->
       exists word,
         words !! (secure sevens_world (secure_pos sevens_world + i)
                   mod length words)%nat
           = Some word /\
         ws !! i = Some (capitalize word)) /\
    Forall from_word_list ws /\
    Forall (fun x => capitalized x = true) ws /\
    length words = 35%nat /\
    Secrets.randbelow 100 w1
      = (Returned d,
         mkWorld (secure sevens_world)
                 (S (secure_pos sevens_world + Z.to_nat 4))
                 (twister sevens_world) (twister_pos sevens_world)
                 (history sevens_world)) /\
    d = (secure sevens_world (secure_pos sevens_world + Z.to_nat 4)
         mod 100)%nat /\
    w' = mkWorld (secure sevens_world)
                 (S (secure_pos sevens_world + Z.to_nat 4))
                 (twister sevens_world) (twister_pos sevens_world)
                 (history sevens_world
                  ++ [join (lit "-") ws ++ str_of_nat d]) /\
    (d < 100)%nat /\
    List.forallb decimal_digit (str_of_nat d) = true /\
    length (str_of_nat d) = (if (d <? 10)%nat then 1 else 2)%nat.
Proof.
  assert (Hin : 3 <= 4 <= 6) by lia.
  split; [exact Hin|].
  exact (passphrase_shape 4 sevens_world Hin).
Defined.

(** C9, refuted as stated: when the draw is seven the suffix is the single
    digit 7, so the passphrase does not end in two digits. *)
Lemma single_digit_suffix :
  fst (generate_passphrase 3 sevens_world)
    = Returned (lit "Hotel-Hotel-Hotel7") /\
  ~ two_digit_passphrase 3 (lit "Hotel-Hotel-Hotel7").
Proof.
  split; [reflexivity|].
  intros (ws & d1 & d2 & _ & _ & H1 & _ & Heq).
  apply (f_equal (@rev char)) in Heq.
  rewrite rev_app_distr in Heq. vm_compute in Heq.
  injection Heq as _ Hd1 _. subst d1. vm_compute in H1. discriminate H1.
Qed.

Section StrengthFacts.

Context (U : UnicodeData).

Lemma symbol_tests_agree c :
  printable_ascii c = true -> is_punctuation c = spec_is_symbol U c.
Proof.
  intros Hc. apply andb_prop in Hc as [Hlo%N.leb_le Hhi%N.leb_le].
  assert (Hall : List.forallb
            (fun n => Bool.eqb (is_punctuation (N.of_nat n))
                               (spec_is_symbol U (N.of_nat n)))
            (List.seq 32 95) = true) by (vm_compute; reflexivity).
  rewrite List.forallb_forall in Hall.
  specialize (Hall (N.to_nat c)). rewrite List.in_seq, N2Nat.id in Hall.
  apply Bool.eqb_prop, Hall. lia.
Qed.

Lemma existsb_agree (p q : char -> bool) (s : str) :
  Forall (fun c => p c = q c) s -> List.existsb p s = List.existsb q s.
Proof. induction 1 as [|c s Hc _ IH]; simpl; [done|by rewrite Hc, IH]. Qed.

Lemma variety_check_score found msg acc :
  fst (variety_check found msg acc) = fst acc + b2z found.
Proof. destruct found; simpl; lia. Qed.

Lemma variety_check_feedback found msg acc :
  snd (variety_check found msg acc) = snd acc ++ note (found) msg.
Proof. destruct found; simpl; by rewrite ?app_nil_r. Qed.

Lemma check_strength_score s :
  score (check_strength U s)
  = length_points s
    + b2z (List.existsb (islower U) s)
    + b2z (List.existsb (isupper U) s)
    + b2z (List.existsb (isdigit U) s)
    + b2z (List.existsb is_punctuation s).
Proof.
  unfold check_strength. cbn [score]. rewrite !variety_check_score.
  unfold length_points.
  destruct (12 <=? Z.of_nat (length s)); [reflexivity|].
  destruct (8 <=? Z.of_nat (length s)); reflexivity.
Qed.

Lemma check_strength_feedback s :
  feedback (check_strength U s)
  = note (8 <=? Z.of_nat (length s)) too_short_msg
    ++ note (List.existsb (islower U) s) add_lower_msg
    ++ note (List.existsb (isupper U) s) add_upper_msg
    ++ note (List.existsb (isdigit U) s) add_digit_msg
    ++ note (List.existsb is_punctuation s) add_symbol_msg.
Proof.
  unfold check_strength. cbn [feedback]. rewrite !variety_check_feedback.
  rewrite <- !app_assoc. f_equal.
  destruct (Z.leb_spec 12 (Z.of_nat (length s))) as [H12|H12].
  - by rewrite (proj2 (Z.leb_le 8 (Z.of_nat (length s)))) by lia.
  - by destruct (8 <=? Z.of_nat (length s)).
Qed.

Lemma check_strength_rating s :
  strength (check_strength U s)
  = if 5 <=? score (check_strength U s) then strong_label
    else if 3 <=? score (check_strength U s) then medium_label
    else weak_label.
Proof. reflexivity. Qed.

Lemma labels_differ :
  strong_label <> medium_label /\ strong_label <> weak_label /\
  medium_label <> weak_label.
Proof. repeat split; discriminate. Qed.

End StrengthFacts.

(** ** Theorems on [check_strength] *)

(** C7 (as the code has it): [check_strength] is a total function of the
    string.  The score is the length points plus one for each of: a
    lower-case character, an upper-case character, a digit, a character of
    [string.punctuation]; the rating follows the score; the feedback lists
    the messages of the failed checks in check order and is empty at six.
    On printable ASCII the punctuation test is the specification's symbol
    test, and the score is the specified one. *)
Theorem check_strength_report (U : UnicodeData) (s : str) :
  score (check_strength U s)
    = length_points s
      + b2z (List.existsb (islower U) s)
      + b2z (List.existsb (isupper U) s)
      + b2z (List.existsb (isdigit U) s)
      + b2z (List.existsb is_punctuation s) /\
  0 <= score (check_strength U s) <= 6 /\
  (strength (check_strength U s) = strong_label <->
     5 <= score (check_strength U s)) /\
  (strength (check_strength U s) = medium_label <->
     3 <= score (check_strength U s) <= 4) /\
  (strength (check_strength U s) = weak_label <->
     score (check_strength U s) < 3) /\
  feedback (check_strength U s)
    = note (8 <=? Z.of_nat (length s)) too_short_msg
      ++ note (List.existsb (islower U) s) add_lower_msg
      ++ note (List.existsb (isupper U) s) add_upper_msg
      ++ note (List.existsb (isdigit U) s) add_digit_msg
      ++ note (List.existsb is_punctuation s) add_symbol_msg /\
  (score (check_strength U s) = 6 -> feedback (check_strength U s) = []) /\
  (Forall (fun c => printable_ascii c = true) s ->
     score (check_strength U s) = spec_score U s).
Proof.
  pose proof (check_strength_score U s) as Hscore.
  pose proof (check_strength_rating U s) as Hrate.
  pose proof (check_strength_feedback U s) as Hfb.
  pose proof labels_differ as (Hsm & Hsw & Hmw).
  assert (Hrange : 0 <= score (check_strength U s) <= 6).
  { rewrite Hscore. unfold length_points, b2z.
    repeat match goal with |- context [if ?b then _ else _] =>
             destruct b end; lia. }
  split; [exact Hscore|]. split; [exact Hrange|].
  split; [|split; [|split; [|split; [|split]]]].
  - rewrite Hrate.
    destruct (Z.leb_spec 5 (score (check_strength U s)));
      [done|destruct (Z.leb_spec 3 (score (check_strength U s)))];
      split; intros; first [lia|congruence].
  - rewrite Hrate.
    destruct (Z.leb_spec 5 (score (check_strength U s)));
      [|destruct (Z.leb_spec 3 (score (check_strength U s)))];
      split; intros; first [lia|congruence|done].
  - rewrite Hrate.
    destruct (Z.leb_spec 5 (score (check_strength U s)));
      [|destruct (Z.leb_spec 3 (score (check_strength U s)))];
      split; intros; first [lia|congruence|done].
  - exact Hfb.
  - rewrite Hfb, Hscore. unfold length_points, b2z, note.
    destruct (Z.leb_spec 12 (Z.of_nat (length s))),
             (Z.leb_spec 8 (Z.of_nat (length s))); try lia;
      repeat match goal with |- context [if ?b then _ else _] =>
               destruct b end; (reflexivity || lia).
  - intros Hp. rewrite Hscore. unfold spec_score.
    rewrite (existsb_agree is_punctuation (spec_is_symbol U) s); [done|].
    eapply Forall_impl; [exact Hp|]. intros c. apply symbol_tests_agree.
Qed.

(** C7, refuted as stated: the delete character (code point 127) is neither
    alphanumeric nor white space, so the specification counts it as a
    symbol; it is not in [string.punctuation], and [check_strength] scores
    the one-character string zero and asks for special characters. *)
Lemma delete_is_no_symbol :
  spec_is_symbol ascii_only 127%N = true /\
  spec_score ascii_only [127%N] = 1 /\
  score (check_strength ascii_only [127%N]) = 0 /\
  feedback (check_strength ascii_only [127%N])
    = [too_short_msg; add_lower_msg; add_upper_msg; add_digit_msg;
       add_symbol_msg] /\
  score (check_strength ascii_only [127%N]) <> spec_score ascii_only [127%N].
Proof. repeat split; (reflexivity || discriminate). Qed.

(** The two evaluations the specification lists. *)
Example strength_of_a_strong_password :
  check_strength ascii_only (lit "Str0ngP@ssphrase!")
  = mkReport strong_label 6 [].
Proof. reflexivity. Qed.

Example strength_of_abc :
  check_strength ascii_only (lit "abc")
  = mkReport weak_label 1
      [too_short_msg; add_upper_msg; add_digit_msg; add_symbol_msg].
Proof. reflexivity. Qed.

(** ** Further properties of [check_strength] *)

Section StrengthProperties.

Context (U : UnicodeData).

Lemma existsb_Permutation (p : char -> bool) (s t : str) :
  s ≡ₚ t -> List.existsb p s = List.existsb p t.
Proof.
  induction 1 as [|c s t _ IH|c d s|s t u _ IH1 _ IH2]; simpl.
  - reflexivity.
  - by rewrite IH.
  - by destruct (p c), (p d).
  - by rewrite IH1.
Qed.

Lemma length_points_mono (s t : str) :
  (length s <= length t)%nat -> length_points s <= length_points t.
Proof.
  intros Hle. unfold length_points.
  destruct (Z.leb_spec 12 (Z.of_nat (length s))),
           (Z.leb_spec 12 (Z.of_nat (length t))),
           (Z.leb_spec 8 (Z.of_nat (length s))),
           (Z.leb_spec 8 (Z.of_nat (length t))); lia.
Qed.

Lemma b2z_mono (a b : bool) : (a = true -> b = true) -> b2z a <= b2z b.
Proof. destruct a, b; simpl; intros H; (lia || by specialize (H eq_refl)). Qed.

Lemma score_mono (s t : str) :
  (length s <= length t)%nat ->
  (forall p, List.existsb p s = true -> List.existsb p t = true) ->
  score (check_strength U s) <= score (check_strength U t).
Proof.
  intros Hlen Hex. rewrite !check_strength_score.
  pose proof (length_points_mono s t Hlen).
  pose proof (b2z_mono _ _ (Hex (islower U))).
  pose proof (b2z_mono _ _ (Hex (isupper U))).
  pose proof (b2z_mono _ _ (Hex (isdigit U))).
  pose proof (b2z_mono _ _ (Hex is_punctuation)).
  lia.
Qed.

(** X1: The report depends on the characters present and on their number, not
    on their order. *)
Theorem strength_ignores_order (s t : str) :
  s ≡ₚ t -> check_strength U s = check_strength U t.
Proof.
  intros Hp. unfold check_strength.
  rewrite (Permutation_length Hp).
  rewrite !(existsb_Permutation _ s t Hp). reflexivity.
Qed.

(** X2: Adding characters, in front or behind, never lowers the score. *)
Theorem more_characters_never_score_less (s t : str) :
  score (check_strength U s) <= score (check_strength U (s ++ t)) /\
  score (check_strength U s) <= score (check_strength U (t ++ s)).
Proof.
  split; apply score_mono; rewrite ?length_app; try lia;
    intros p Hp; rewrite List.existsb_app, Hp; by rewrite ?orb_true_r.
Qed.

(** X3: A string of fewer than eight characters scores at most four, is never
    rated Strong, and is told first that it is too short. *)
Theorem short_is_never_strong (s : str) :
  Z.of_nat (length s) < 8 ->
  score (check_strength U s) <= 4 /\
  strength (check_strength U s) <> strong_label /\
  head (feedback (check_strength U s)) = Some too_short_msg.
Proof.
  intros Hlen.
  assert (Hsc : score (check_strength U s) <= 4).
  { rewrite check_strength_score. unfold length_points, b2z.
    rewrite (proj2 (Z.leb_gt 12 _)), (proj2 (Z.leb_gt 8 _)) by lia.
    repeat match goal with |- context [if ?b then _ else _] =>
             destruct b end; lia. }
  split; [exact Hsc|]. split.
  - rewrite check_strength_rating.
    rewrite (proj2 (Z.leb_gt 5 _)) by lia.
    pose proof labels_differ as (Hsm & Hsw & Hmw).
    destruct (3 <=? _); congruence.
  - rewrite check_strength_feedback.
    by rewrite (proj2 (Z.leb_gt 8 _)) by lia.
Qed.

(** X4: No suggestion is made exactly when the string has at least eight
    characters and passes the four variety checks; it is then rated Strong,
    with a score of five below twelve characters and six from twelve on. *)
Theorem no_feedback_iff (s : str) :
  (feedback (check_strength U s) = [] <->
     8 <= Z.of_nat (length s) /\
     forall cls, List.existsb (kind_test U cls) s = true) /\
  (feedback (check_strength U s) = [] ->
     strength (check_strength U s) = strong_label /\
     score (check_strength U s)
     = if 12 <=? Z.of_nat (length s) then 6 else 5).
Proof.
  assert (Hiff : feedback (check_strength U s) = [] <->
     8 <= Z.of_nat (length s) /\
     forall cls, List.existsb (kind_test U cls) s = true).
  { rewrite check_strength_feedback. unfold note. split.
    - intros Hnil.
      destruct (Z.leb_spec 8 (Z.of_nat (length s))); [|discriminate Hnil].
      split; [done|].
      destruct (List.existsb (islower U) s) eqn:H1; [|discriminate Hnil].
      destruct (List.existsb (isupper U) s) eqn:H2; [|discriminate Hnil].
      destruct (List.existsb (isdigit U) s) eqn:H3; [|discriminate Hnil].
      destruct (List.existsb is_punctuation s) eqn:H4; [|discriminate Hnil].
      intros []; assumption.
    - intros [Hlen Hall].
      assert (H1 : List.existsb (islower U) s = true)
        by exact (Hall Lowercase).
      assert (H2 : List.existsb (isupper U) s = true)
        by exact (Hall Uppercase).
      assert (H3 : List.existsb (isdigit U) s = true) by exact (Hall Digit).
      assert (H4 : List.existsb is_punctuation s = true)
        by exact (Hall Symbol).
      rewrite (proj2 (Z.leb_le 8 _)) by lia.
      by rewrite H1, H2, H3, H4. }
  split; [exact Hiff|].
  intros Hnil. apply Hiff in Hnil as [Hlen Hall].
  assert (H1 : List.existsb (islower U) s = true) by exact (Hall Lowercase).
  assert (H2 : List.existsb (isupper U) s = true) by exact (Hall Uppercase).
  assert (H3 : List.existsb (isdigit U) s = true) by exact (Hall Digit).
  assert (H4 : List.existsb is_punctuation s = true) by exact (Hall Symbol).
  assert (Hsc : score (check_strength U s)
                = if 12 <=? Z.of_nat (length s) then 6 else 5).
  { rewrite check_strength_score, H1, H2, H3, H4. unfold length_points.
    rewrite (proj2 (Z.leb_le 8 _)) by lia.
    by destruct (12 <=? Z.of_nat (length s)). }
  split; [|exact Hsc].
  rewrite check_strength_rating, Hsc.
  by destruct (12 <=? Z.of_nat (length s)).
Qed.

End StrengthProperties.

Lemma strength_ignores_order_witness :
  lit "aB" ≡ₚ lit "Ba" /\
  check_strength ascii_only (lit "aB") = check_strength ascii_only (lit "Ba").
Proof.
  assert (Hp : lit "aB" ≡ₚ lit "Ba") by exact (perm_swap _ _ []).
  split; [exact Hp|].
  exact (strength_ignores_order ascii_only (lit "aB") (lit "Ba") Hp).
Defined.

Lemma short_is_never_strong_witness :
  Z.of_nat (length (lit "aB3$xyz")) < 8 /\
  score (check_strength ascii_only (lit "aB3$xyz")) <= 4 /\
  strength (check_strength ascii_only (lit "aB3$xyz")) <> strong_label /\
  head (feedback (check_strength ascii_only (lit "aB3$xyz")))
    = Some too_short_msg.
Proof.
  assert (Hlen : Z.of_nat (length (lit "aB3$xyz")) < 8) by (cbn; lia).
  split; [exact Hlen|].
  exact (short_is_never_strong ascii_only (lit "aB3$xyz") Hlen).
Defined.

(** ** A generated password under [check_strength] *)

Section GeneratedStrength.

Lemma same_class_eq a b : same_class a b = true <-> a = b.
Proof. by destruct a, b. Qed.

(** A character of a class's alphabet passes the test of that class and
    of no other. *)
Lemma class_chars_kind (U : UnicodeData) cls ex cls' c :
  c ∈ class_chars cls ex -> kind_test U cls' c = same_class cls' cls.
Proof.
  intros Hc.
  assert (Hall : List.forallb
            (fun x => Bool.eqb (kind_test U cls' x) (same_class cls' cls))
            (class_chars cls ex) = true)
    by (destruct cls, ex, cls'; vm_compute; reflexivity).
  apply Bool.eqb_prop. exact (char_in_forallb _ _ _ Hall Hc).
Qed.

Lemma composed_kinds (U : UnicodeData) cfg pw cls :
  composed cfg pw ->
  List.existsb (kind_test U cls) pw = enabled cfg cls.
Proof.
  intros Hc. destruct (enabled cfg cls) eqn:Hen.
  - destruct (composed_covers cfg pw cls Hc Hen) as (c & Hin & Hcls).
    apply List.existsb_exists. exists c. split; [by apply list_elem_of_In|].
    rewrite (class_chars_kind U _ _ cls c Hcls). by apply same_class_eq.
  - apply Bool.not_true_is_false. intros Hex.
    apply List.existsb_exists in Hex as (c & Hin%list_elem_of_In & Hk).
    destruct (composed_chars cfg pw c Hc Hin) as (cls' & Hen' & Hcls).
    rewrite (class_chars_kind U _ _ cls c Hcls) in Hk.
    apply same_class_eq in Hk as ->. congruence.
Qed.

Lemma enabled_count_sum cfg :
  Z.of_nat (enabled_count cfg)
  = b2z (use_lower cfg) + b2z (use_upper cfg)
    + b2z (use_digits cfg) + b2z (use_symbols cfg).
Proof. by destruct cfg as [len [] [] [] [] ex]. Qed.

(** X5: What [check_strength] says of a password [generate_password] returned:
    the score is the length points plus the number of enabled classes, and
    the suggestions name exactly the classes that were not enabled. *)
Theorem generated_password_strength cfg w :
  valid_config cfg ->
  exists pw w',
    run_generate cfg w = (Returned pw, w') /\
    forall U : UnicodeData,
      score (check_strength U pw)
        = points_for_length (cfg_length cfg)
          + Z.of_nat (enabled_count cfg) /\
      feedback (check_strength U pw)
        = note (8 <=? cfg_length cfg) too_short_msg
          ++ note (use_lower cfg) add_lower_msg
          ++ note (use_upper cfg) add_upper_msg
          ++ note (use_digits cfg) add_digit_msg
          ++ note (use_symbols cfg) add_symbol_msg /\
      (strength (check_strength U pw) = strong_label <->
         5 <= points_for_length (cfg_length cfg)
              + Z.of_nat (enabled_count cfg)).
Proof.
  intros Hv.
  destruct (generate_password_returns cfg w Hv) as (pw & w' & Hrun & Hc & _).
  exists pw, w'. split; [exact Hrun|]. intros U.
  pose proof (composed_length cfg pw Hc) as Hlen.
  assert (H1 : List.existsb (islower U) pw = use_lower cfg)
    by exact (composed_kinds U cfg pw Lowercase Hc).
  assert (H2 : List.existsb (isupper U) pw = use_upper cfg)
    by exact (composed_kinds U cfg pw Uppercase Hc).
  assert (H3 : List.existsb (isdigit U) pw = use_digits cfg)
    by exact (composed_kinds U cfg pw Digit Hc).
  assert (H4 : List.existsb is_punctuation pw = use_symbols cfg)
    by exact (composed_kinds U cfg pw Symbol Hc).
  assert (Hsc : score (check_strength U pw)
                = points_for_length (cfg_length cfg)
                  + Z.of_nat (enabled_count cfg)).
  { rewrite check_strength_score, H1, H2, H3, H4, enabled_count_sum.
    unfold length_points, points_for_length. rewrite Hlen. lia. }
  split; [exact Hsc|]. split.
  - by rewrite check_strength_feedback, H1, H2, H3, H4, Hlen.
  - rewrite check_strength_rating, Hsc.
    pose proof labels_differ as (Hsm & Hsw & Hmw).
    destruct (Z.leb_spec 5 (points_for_length (cfg_length cfg)
                            + Z.of_nat (enabled_count cfg)));
      [done|].
    destruct (3 <=? _); split; intros; first [lia|congruence].
Qed.

Lemma generated_password_strength_witness :
  valid_config unambiguous_twelve /\
  exists pw w',
    run_generate unambiguous_twelve still_world = (Returned pw, w') /\
    forall U : UnicodeData,
      score (check_strength U pw)
        = points_for_length (cfg_length unambiguous_twelve)
          + Z.of_nat (enabled_count unambiguous_twelve) /\
      feedback (check_strength U pw)
        = note (8 <=? cfg_length unambiguous_twelve) too_short_msg
          ++ note (use_lower unambiguous_twelve) add_lower_msg
          ++ note (use_upper unambiguous_twelve) add_upper_msg
          ++ note (use_digits unambiguous_twelve) add_digit_msg
          ++ note (use_symbols unambiguous_twelve) add_symbol_msg /\
      (strength (check_strength U pw) = strong_label <->
         5 <= points_for_length (cfg_length unambiguous_twelve)
              + Z.of_nat (enabled_count unambiguous_twelve)).
Proof.
  assert (Hv : valid_config unambiguous_twelve)
    by (unfold valid_config; cbn; lia).
  split; [exact Hv|].
  exact (generated_password_strength unambiguous_twelve still_world Hv).
Defined.

(** X6: A class that is not enabled contributes nothing: no character of its
    alphabet occurs in the password. *)
Theorem disabled_classes_stay_out cfg w :
  valid_config cfg ->
  exists pw w',
    run_generate cfg w = (Returned pw, w') /\
    forall cls, enabled cfg cls = false ->
      forall c, c ∈ base_alphabet cls -> c ∉ pw.
Proof.
  intros Hv.
  destruct (generate_password_returns cfg w Hv) as (pw & w' & Hrun & Hc & _).
  exists pw, w'. split; [exact Hrun|]. intros cls Hen c Hbase Hin.
  destruct (composed_chars cfg pw c Hc Hin) as (cls' & Hen' & Hcls).
  assert (Hb : c ∈ class_chars cls false) by (by destruct cls).
  pose proof (class_chars_kind ascii_only _ _ cls c Hb) as Hk1.
  pose proof (class_chars_kind ascii_only _ _ cls c Hcls) as Hk2.
  rewrite Hk1 in Hk2. symmetry in Hk2.
  rewrite (proj2 (same_class_eq cls cls) eq_refl) in Hk2.
  apply same_class_eq in Hk2 as ->. congruence.
Qed.

Lemma disabled_classes_stay_out_witness :
  valid_config letters_only /\
  exists pw w',
    run_generate letters_only still_world = (Returned pw, w') /\
    forall cls, enabled letters_only cls = false ->
      forall c, c ∈ base_alphabet cls -> c ∉ pw.
Proof.
  assert (Hv : valid_config letters_only)
    by (unfold valid_config; cbn; lia).
  split; [exact Hv|].
  exact (disabled_classes_stay_out letters_only still_world Hv).
Defined.

End GeneratedStrength.

(** ** Further properties of passphrases *)

Section PassphraseProperties.

Lemma join_length (sep : str) (ws : list str) :
  ws <> [] ->
  length (join sep ws)
  = (total_length ws + (length ws - 1) * length sep)%nat.
Proof.
  induction ws as [|x ws IH]; [done|]. intros _.
  destruct ws as [|y ws]; [simpl; lia|].
  change (join sep (x :: y :: ws)) with (x ++ sep ++ join sep (y :: ws)).
  rewrite !length_app, IH by done.
  cbn [total_length List.fold_right length]. lia.
Qed.

Lemma join_existsb_part (p : char -> bool) sep (ws : list str) x :
  x ∈ ws -> List.existsb p x = true ->
  List.existsb p (join sep ws) = true.
Proof.
  intros Hin Hx. induction ws as [|y ws IH]; [by apply elem_of_nil in Hin|].
  destruct ws as [|z ws].
  - apply list_elem_of_singleton in Hin as ->. exact Hx.
  - change (join sep (y :: z :: ws)) with (y ++ sep ++ join sep (z :: ws)).
    rewrite !List.existsb_app.
    apply elem_of_cons in Hin as [->|Hin].
    + by rewrite Hx.
    + rewrite (IH Hin). by rewrite !orb_true_r.
Qed.

Lemma join_existsb_sep (p : char -> bool) sep (ws : list str) :
  (2 <= length ws)%nat -> List.existsb p sep = true ->
  List.existsb p (join sep ws) = true.
Proof.
  intros Hlen Hsep. destruct ws as [|x [|y ws]]; simpl in Hlen; try lia.
  change (join sep (x :: y :: ws)) with (x ++ sep ++ join sep (y :: ws)).
  rewrite !List.existsb_app, Hsep. by rewrite orb_true_r.
Qed.

(** Every word of the list, capitalized, has four to eight characters, an
    upper-case one and a lower-case one. *)
Lemma word_facts (U : UnicodeData) x :
  from_word_list x ->
  (4 <= length x <= 8)%nat /\
  List.existsb (isupper U) x = true /\
  List.existsb (islower U) x = true.
Proof.
  intros (word & Hin & ->).
  assert (Hall : List.forallb
            (fun w => (4 <=? length (capitalize w))%nat
                      && (length (capitalize w) <=? 8)%nat
                      && List.existsb (isupper U) (capitalize w)
                      && List.existsb (islower U) (capitalize w))
            words = true) by (vm_compute; reflexivity).
  rewrite List.forallb_forall in Hall.
  specialize (Hall word (proj1 (list_elem_of_In _ _) Hin)).
  apply andb_prop in Hall as [Hall H4]. apply andb_prop in Hall as [Hall H3].
  apply andb_prop in Hall as [H1 H2].
  apply Nat.leb_le in H1, H2. done.
Qed.

Lemma total_length_bounds (ws : list str) :
  Forall (fun x => (4 <= length x <= 8)%nat) ws ->
  (4 * length ws <= total_length ws <= 8 * length ws)%nat.
Proof.
  induction 1 as [|x ws Hx _ IH]; simpl; lia.
Qed.

Lemma suffix_facts (U : UnicodeData) d :
  (d < 100)%nat ->
  (1 <= length (str_of_nat d) <= 2)%nat /\
  List.existsb (isdigit U) (str_of_nat d) = true.
Proof.
  intros Hd.
  assert (Hall : List.forallb
            (fun n => (1 <=? length (str_of_nat n))%nat
                      && (length (str_of_nat n) <=? 2)%nat
                      && List.existsb (isdigit U) (str_of_nat n))
            (List.seq 0 100) = true) by (vm_compute; reflexivity).
  rewrite List.forallb_forall in Hall.
  specialize (Hall d). rewrite List.in_seq in Hall.
  specialize (Hall ltac:(lia)).
  apply andb_prop in Hall as [Hall H3]. apply andb_prop in Hall as [H1 H2].
  apply Nat.leb_le in H1, H2. done.
Qed.

(** X7: A passphrase of [n >= 1] words has between [5 n] and [9 n + 1]
    characters: words of four to eight letters, [n - 1] hyphens and a
    number of one or two digits. *)
Theorem passphrase_length_bounds word_count w :
  1 <= word_count ->
  exists pp w',
    generate_passphrase word_count w = (Returned pp, w') /\
    5 * word_count <= Z.of_nat (length pp) <= 9 * word_count + 1.
Proof.
  intros Hwc.
  destruct (generate_passphrase_returns word_count w)
    as (ws & d & w1 & w2 & w' & _ & _ & Hrun & Hlen & Hall & Hlt & _).
  exists (join (lit "-") ws ++ str_of_nat d), w'. split; [exact Hrun|].
  destruct (suffix_facts ascii_only d Hlt) as [Hsuf _].
  assert (Hne : ws <> []) by (intros ->; simpl in Hlen; lia).
  assert (Hb : Forall (fun x => (4 <= length x <= 8)%nat) ws).
  { eapply Forall_impl; [exact Hall|].
    intros x Hx. by destruct (word_facts ascii_only x Hx). }
  apply total_length_bounds in Hb.
  rewrite length_app, (join_length _ _ Hne).
  change (length (lit "-")) with 1%nat. lia.
Qed.

Lemma passphrase_length_bounds_witness :
  1 <= 4 /\
  exists pp w',
    generate_passphrase 4 still_world = (Returned pp, w') /\
    5 * 4 <= Z.of_nat (length pp) <= 9 * 4 + 1.
Proof.
  assert (Hwc : 1 <= 4) by lia.
  split; [exact Hwc|].
  exact (passphrase_length_bounds 4 still_world Hwc).
Defined.

(** X8: A passphrase of three words or more always gets the full marks of
    [check_strength]: score six, rating Strong, no suggestion. *)
Theorem passphrase_is_rated_strong word_count w :
  3 <= word_count ->
  exists pp w',
    generate_passphrase word_count w = (Returned pp, w') /\
    forall U : UnicodeData, check_strength U pp = mkReport strong_label 6 [].
Proof.
  intros Hwc.
  destruct (generate_passphrase_returns word_count w)
    as (ws & d & w1 & w2 & w' & _ & _ & Hrun & Hlen & Hall & Hlt & _).
  exists (join (lit "-") ws ++ str_of_nat d), w'. split; [exact Hrun|].
  intros U. set (pp := join (lit "-") ws ++ str_of_nat d).
  destruct (suffix_facts U d Hlt) as [Hsuf Hdig].
  destruct ws as [|x ws']; [simpl in Hlen; lia|].
  assert (Hx : from_word_list x) by (by apply Forall_cons in Hall as [? _]).
  set (ws := x :: ws') in *.
  assert (Hxin : x ∈ ws) by (apply elem_of_cons; by left).
  assert (Hne : ws <> []) by done.
  clearbody ws.
  destruct (word_facts U x Hx) as (_ & Hup & Hlo).
  assert (Hb : Forall (fun y => (4 <= length y <= 8)%nat) ws).
  { eapply Forall_impl; [exact Hall|].
    intros y Hy. by destruct (word_facts U y Hy). }
  apply total_length_bounds in Hb.
  assert (Hl : 12 <= Z.of_nat (length pp)).
  { unfold pp. rewrite length_app, (join_length _ ws) by done.
    change (length (lit "-")) with 1%nat. lia. }
  assert (H1 : List.existsb (islower U) pp = true).
  { unfold pp. rewrite List.existsb_app.
    by rewrite (join_existsb_part _ _ ws x Hxin Hlo). }
  assert (H2 : List.existsb (isupper U) pp = true).
  { unfold pp. rewrite List.existsb_app.
    by rewrite (join_existsb_part _ _ ws x Hxin Hup). }
  assert (H3 : List.existsb (isdigit U) pp = true).
  { unfold pp. rewrite List.existsb_app, Hdig. by rewrite orb_true_r. }
  assert (H4 : List.existsb is_punctuation pp = true).
  { unfold pp. rewrite List.existsb_app.
    rewrite (join_existsb_sep is_punctuation (lit "-") ws); [done| |done].
    lia. }
  assert (Hsc : score (check_strength U pp) = 6).
  { rewrite check_strength_score, H1, H2, H3, H4. unfold length_points.
    by rewrite (proj2 (Z.leb_le 12 _)) by lia. }
  assert (Hfb : feedback (check_strength U pp) = []).
  { rewrite check_strength_feedback, H1, H2, H3, H4.
    by rewrite (proj2 (Z.leb_le 8 _)) by lia. }
  assert (Hst : strength (check_strength U pp) = strong_label)
    by (by rewrite check_strength_rating, Hsc).
  destruct (check_strength U pp) as [a b c]. simpl in *. by subst.
Qed.

Lemma passphrase_is_rated_strong_witness :
  3 <= 3 /\
  exists pp w',
    generate_passphrase 3 sevens_world = (Returned pp, w') /\
    forall U : UnicodeData, check_strength U pp = mkReport strong_label 6 [].
Proof.
  assert (Hwc : 3 <= 3) by lia.
  split; [exact Hwc|].
  exact (passphrase_is_rated_strong 3 sevens_world Hwc).
Defined.

(** X9: With a word count of zero or less no word is drawn: the passphrase is
    the bare number of the one draw made, and it is recorded all the same. *)
Theorem passphrase_without_words word_count w :
  word_count <= 0 ->
  generate_passphrase word_count w
  = (Returned (str_of_nat (secure w (secure_pos w) mod 100)),
     mkWorld (secure w) (S (secure_pos w)) (twister w) (twister_pos w)
       (history w ++ [str_of_nat (secure w (secure_pos w) mod 100)])).
Proof.
  intros Hwc. unfold generate_passphrase.
  replace (Z.to_nat word_count) with 0%nat by lia. reflexivity.
Qed.

Lemma passphrase_without_words_witness :
  -2 <= 0 /\
  generate_passphrase (-2) sevens_world
  = (Returned (str_of_nat (secure sevens_world (secure_pos sevens_world)
                           mod 100)),
     mkWorld (secure sevens_world) (S (secure_pos sevens_world))
       (twister sevens_world) (twister_pos sevens_world)
       (history sevens_world
        ++ [str_of_nat (secure sevens_world (secure_pos sevens_world)
                        mod 100)])).
Proof.
  assert (Hwc : -2 <= 0) by lia.
  split; [exact Hwc|].
  exact (passphrase_without_words (-2) sevens_world Hwc).
Defined.

End PassphraseProperties.

(** ** The history and its display *)

Section History.

Lemma last_items_length {A} n (l : list A) :
  length (last_items n l) = Nat.min n (length l).
Proof. unfold last_items. rewrite length_drop. lia. Qed.

Lemma last_items_lookup {A} n (l : list A) k :
  last_items n l !! k = l !! (length l - Nat.min n (length l) + k)%nat.
Proof.
  unfold last_items. rewrite lookup_drop. f_equal. lia.
Qed.

Lemma last_items_app {A} n (l1 l2 : list A) :
  (n <= length l2)%nat -> last_items n (l1 ++ l2) = last_items n l2.
Proof.
  intros Hn. unfold last_items. rewrite length_app.
  rewrite drop_app_ge by lia. f_equal. lia.
Qed.

Lemma enumerate_length {A} (l : list A) start :
  length (enumerate l start) = length l.
Proof. revert start. induction l; intros; simpl; by rewrite ?IHl. Qed.

Lemma enumerate_lookup {A} (l : list A) start k a :
  l !! k = Some a -> enumerate l start !! k = Some ((start + k)%nat, a).
Proof.
  revert start k. induction l as [|b l IH]; intros start k Hk; [done|].
  destruct k as [|k]; simpl in *.
  - injection Hk as ->. by rewrite Nat.add_0_r.
  - rewrite (IH (S start) k Hk). do 2 f_equal. lia.
Qed.

Lemma map_lookup {A B} (f : A -> B) (l : list A) k a :
  l !! k = Some a -> List.map f l !! k = Some (f a).
Proof.
  revert k. induction l as [|b l IH]; intros [|k] Hk; simpl in *;
    try done; [by injection Hk as ->|by apply IH].
Qed.

Lemma show_history_nonempty w :
  history w <> [] ->
  show_history w
  = (Returned (history_banner
               ++ List.map history_line
                    (enumerate (last_items 10 (history w)) 1)
               ++ [history_footer]), w).
Proof. unfold show_history. by destruct (history w). Qed.

(** X10: [show_history] changes nothing.  On an empty history it prints the one
    notice; otherwise, between the banner and the closing rule, it prints
    the last ten entries (all of them when there are fewer), oldest first,
    numbered from one. *)
Theorem show_history_lists_the_last_ten w :
  snd (show_history w) = w /\
  (history w = [] -> fst (show_history w) = Returned [no_history_msg]) /\
  (history w <> [] ->
   exists lines,
     fst (show_history w) = Returned lines /\
     length lines = (4 + Nat.min 10 (length (history w)))%nat /\
     take 3 lines = history_banner /\
     last lines = Some history_footer /\
     forall k pwd,
       (k < Nat.min 10 (length (history w)))%nat ->
       history w !! (length (history w)
                     - Nat.min 10 (length (history w)) + k)%nat = Some pwd ->
       lines !! (3 + k)%nat = Some (history_line (S k, pwd))).
Proof.
  split; [unfold show_history; by destruct (history w)|].
  split; [intros Hnil; unfold show_history; by rewrite Hnil|].
  intros Hne. rewrite (show_history_nonempty w Hne). cbn [fst].
  eexists. split; [reflexivity|].
  split; [|split; [|split]].
  - rewrite !length_app, length_map, enumerate_length, last_items_length.
    simpl. lia.
  - reflexivity.
  - rewrite app_assoc. apply last_snoc.
  - intros k pwd Hk Hpwd.
    change (3 + k)%nat with (length history_banner + k)%nat.
    rewrite lookup_app_r by lia.
    replace (length history_banner + k - length history_banner)%nat
      with k by lia.
    rewrite lookup_app_l
      by (rewrite length_map, enumerate_length, last_items_length; lia).
    apply (map_lookup history_line _ k (S k, pwd)).
    rewrite (enumerate_lookup _ 1 k pwd); [done|].
    by rewrite last_items_lookup.
Qed.

(** X11: Generating [n] passwords with a valid configuration appends them to
    the history in the order generated; from ten generations on,
    [show_history] then lists exactly the last ten of them. *)
Theorem history_records_every_password cfg n w :
  valid_config cfg ->
  exists pws w',
    replicateM n (run_generate cfg) w = (Returned pws, w') /\
    length pws = n /\
    Forall (composed cfg) pws /\
    history w' = history w ++ pws /\
    ((10 <= n)%nat ->
       show_history w'
       = (Returned (history_banner
                    ++ List.map history_line
                         (enumerate (last_items 10 pws) 1)
                    ++ [history_footer]), w')).
Proof.
  intros Hv.
  assert (Hrun : exists pws w',
    replicateM n (run_generate cfg) w = (Returned pws, w') /\
    length pws = n /\ Forall (composed cfg) pws /\
    history w' = history w ++ pws).
  { revert w. induction n as [|n IH]; intros w.
    - exists [], w. by rewrite app_nil_r.
    - destruct (generate_password_returns cfg w Hv)
        as (pw & w1 & Hpw & Hc & _ & _ & Hh1).
      destruct (IH w1) as (pws & w2 & Hpws & Hlen & Hall & Hh2).
      exists (pw :: pws), w2. split; [|split; [|split]].
      + simpl. erewrite bind_returned by exact Hpw.
        erewrite bind_returned by exact Hpws. reflexivity.
      + simpl. by rewrite Hlen.
      + by constructor.
      + rewrite Hh2, Hh1, <- app_assoc. reflexivity. }
  destruct Hrun as (pws & w' & Hrun & Hlen & Hall & Hh).
  exists pws, w'. repeat (split; [done|]).
  intros Hn. rewrite show_history_nonempty.
  - rewrite Hh, last_items_app by lia. reflexivity.
  - rewrite Hh. intros Heq. apply (f_equal length) in Heq.
    rewrite length_app in Heq. simpl in Heq. lia.
Qed.

Lemma history_records_every_password_witness :
  valid_config four_of_each /\
  exists pws w',
    replicateM 15 (run_generate four_of_each) still_world
      = (Returned pws, w') /\
    length pws = 15%nat /\
    Forall (composed four_of_each) pws /\
    history w' = history still_world ++ pws /\
    ((10 <= 15)%nat ->
       show_history w'
       = (Returned (history_banner
                    ++ List.map history_line
                         (enumerate (last_items 10 pws) 1)
                    ++ [history_footer]), w')).
Proof.
  assert (Hv : valid_config four_of_each)
    by (unfold valid_config; cbn; lia).
  split; [exact Hv|].
  exact (history_records_every_password four_of_each 15 still_world Hv).
Defined.

End History.

(** ** Option 1 of the menu *)

Section PasswordOption.

(** X12: When [generate_password] returns an error string, option 1 prints it as
    the generated password and rates it like one: both error strings come
    out Strong, with a score of six for the length error and five for the
    no-class error.  Nothing is drawn and nothing is recorded. *)
Theorem error_text_is_rated_strong (U : UnicodeData) cfg w :
  (cfg_length cfg < 4 ->
     run_password_option U cfg w
     = (Returned [Shell.password_prefix ++ length_error;
                  Shell.strength_line (mkReport strong_label 6 [])], w)) /\
  (4 <= cfg_length cfg -> enabled_count cfg = 0%nat ->
     run_password_option U cfg w
     = (Returned [Shell.password_prefix ++ no_class_error;
                  Shell.strength_line
                    (mkReport strong_label 5 [add_digit_msg])], w)).
Proof.
  split.
  - intros Hlt. unfold run_password_option, Shell.password_option.
    erewrite bind_returned by exact (generate_password_short cfg w Hlt).
    assert (Hr : check_strength U length_error = mkReport strong_label 6 [])
      by (vm_compute; reflexivity).
    cbv zeta. by rewrite Hr.
  - intros Hge H0. unfold run_password_option, Shell.password_option.
    erewrite bind_returned by exact (generate_password_no_class cfg w Hge H0).
    assert (Hr : check_strength U no_class_error
                 = mkReport strong_label 5 [add_digit_msg])
      by (vm_compute; reflexivity).
    cbv zeta. by rewrite Hr.
Qed.

End PasswordOption.

(** ** How many draws a generation makes *)

Section Draws.

Lemma stepped_trans s1 t1 s2 t2 w1 w2 w3 :
  stepped s1 t1 w1 w2 -> stepped s2 t2 w2 w3 ->
  stepped (s1 + s2) (t1 + t2) w1 w3.
Proof.
  intros (D1 & S1 & T1) (D2 & S2 & T2).
  split; [by eapply drew_only_trans|]. rewrite S2, S1, T2, T1. lia.
Qed.

Lemma choice_steps {A} (seq : list A) w :
  seq <> [] ->
  exists a w', Secrets.choice seq w = (Returned a, w') /\ stepped 1 0 w w'.
Proof.
  intros Hne. destruct seq as [|a0 seq']; [done|].
  set (seq := a0 :: seq') in *.
  set (i := (secure w (secure_pos w) mod length seq)%nat).
  assert (Hi : (i < length seq)%nat).
  { apply Nat.mod_upper_bound. subst seq. simpl. lia. }
  destruct (lookup_lt_is_Some_2 seq i Hi) as [a Ha].
  exists a. eexists. split.
  - change (Secrets.choice seq w)
      with (bind (Secrets.next_draw (length seq))
                 (fun i => match seq !! i with
                           | Some a => ret a
                           | None => raise IndexError
                           end) w).
    erewrite bind_returned by reflexivity.
    fold i. rewrite Ha. reflexivity.
  - unfold stepped, drew_only. cbn. repeat split; lia.
Qed.

Lemma replicateM_steps {A} (m : M A) n :
  (forall w, exists a w', m w = (Returned a, w') /\ stepped 1 0 w w') ->
  forall w, exists l w',
    replicateM n m w = (Returned l, w') /\
    length l = n /\ stepped n 0 w w'.
Proof.
  intros Hm. induction n as [|n IH]; intros w.
  - exists [], w. split; [done|]. split; [done|].
    unfold stepped, drew_only. repeat split; lia.
  - destruct (Hm w) as (a & w1 & Ha & H1).
    destruct (IH w1) as (l & w2 & Hl & Hlen & H2).
    exists (a :: l), w2. split; [|split].
    + simpl. erewrite bind_returned by exact Ha.
      erewrite bind_returned by exact Hl. reflexivity.
    + simpl. by rewrite Hlen.
    + exact (stepped_trans 1 0 n 0 _ _ _ H1 H2).
Qed.

Lemma shuffle_from_steps {A} i (x : list A) w :
  (i < length x \/ i = 0)%nat ->
  exists x' w', Random.shuffle_from i x w = (Returned x', w') /\
                stepped 0 i w w'.
Proof.
  revert x w. induction i as [|i IH]; intros x w Hi.
  - exists x, w. split; [done|].
    unfold stepped, drew_only. repeat split; lia.
  - assert (Hlt : (S i < length x)%nat) by lia.
    set (j := (twister w (twister_pos w) mod S (S i))%nat).
    assert (Hj : (j < length x)%nat).
    { pose proof (Nat.mod_upper_bound (twister w (twister_pos w)) (S (S i))).
      subst j. lia. }
    destruct (lookup_lt_is_Some_2 x (S i) Hlt) as [a Ha].
    destruct (lookup_lt_is_Some_2 x j Hj) as [b Hb].
    set (x1 := <[j:=a]> (<[S i:=b]> x)).
    set (w1 := mkWorld (secure w) (secure_pos w) (twister w)
                       (S (twister_pos w)) (history w)).
    destruct (IH x1 w1) as (x' & w' & Hrun & Hs).
    { left. subst x1. rewrite !length_insert. lia. }
    exists x', w'. split.
    + cbn [Random.shuffle_from].
      erewrite bind_returned by reflexivity. fold j.
      unfold Random.swap_items. rewrite Ha, Hb.
      erewrite bind_returned by reflexivity. exact Hrun.
    + assert (H1 : stepped 0 1 w w1)
        by (unfold stepped, drew_only; cbn; repeat split; lia).
      exact (stepped_trans 0 1 0 i _ _ _ H1 Hs).
Qed.

Lemma class_block_steps (use : bool) chars locals w :
  chars <> [] ->
  exists l w',
    (if use then take_class chars locals else ret locals) w
      = (Returned (fst locals ++ (if use then chars else []),
                   snd locals ++ l), w') /\
    length l = (if use then 1 else 0)%nat /\
    stepped (if use then 1 else 0) 0 w w'.
Proof.
  intros Hne. destruct use.
  - destruct (choice_steps chars w Hne) as (c & w' & Hc & Hs).
    exists [c], w'. split; [|done].
    unfold take_class. erewrite bind_returned by exact Hc. reflexivity.
  - exists [], w. rewrite !app_nil_r. destruct locals.
    split; [done|]. split; [done|].
    unfold stepped, drew_only. repeat split; lia.
Qed.

(** X13: A generation on a valid configuration makes exactly [length] draws
    from the secure source (one per enabled class, then the filler) and
    [length - 1] draws from the Twister (the shuffle). *)
Theorem generation_draw_count cfg w :
  valid_config cfg ->
  exists pw w',
    run_generate cfg w = (Returned pw, w') /\
    secure_pos w' = (secure_pos w + Z.to_nat (cfg_length cfg))%nat /\
    twister_pos w'
    = (twister_pos w + (Z.to_nat (cfg_length cfg) - 1))%nat.
Proof.
  intros (H4 & Hk & H1).
  destruct cfg as [len uu ul ud us ex].
  unfold run_generate, generate_password.
  cbn [cfg_length use_upper use_lower use_digits use_symbols
       exclude_ambiguous] in *.
  rewrite (proj2 (Z.ltb_ge len 4)) by lia.
  destruct (class_block_steps ul (lower_chars ex) ([], []) w)
    as (pl & w1 & E1 & L1 & S1); [apply (class_chars_nonempty Lowercase ex)|].
  erewrite bind_returned by exact E1. clear E1.
  match goal with |- context [take_class (upper_chars ex) ?loc] =>
    destruct (class_block_steps uu (upper_chars ex) loc w1)
      as (pu & w2 & E2 & L2 & S2); [apply (class_chars_nonempty Uppercase ex)|]
  end.
  erewrite bind_returned by exact E2. clear E2.
  match goal with |- context [take_class (digit_chars ex) ?loc] =>
    destruct (class_block_steps ud (digit_chars ex) loc w2)
      as (pd & w3 & E3 & L3 & S3); [apply (class_chars_nonempty Digit ex)|]
  end.
  erewrite bind_returned by exact E3. clear E3.
  match goal with |- context [take_class symbols ?loc] =>
    destruct (class_block_steps us symbols loc w3)
      as (ps & w4 & E4 & L4 & S4); [apply (class_chars_nonempty Symbol ex)|]
  end.
  erewrite bind_returned by exact E4. clear E4.
  cbn [fst snd] in *.
  match goal with |- context [Secrets.choice ?p] => set (pool := p) end.
  match goal with |- context [Random.shuffle (?r ++ _)] =>
    set (required := r) in *
  end.
  assert (Hreq : length required
                 = ((if ul then 1 else 0) + (if uu then 1 else 0)
                    + (if ud then 1 else 0) + (if us then 1 else 0))%nat).
  { subst required. rewrite !length_app, L1, L2, L3, L4. simpl. lia. }
  assert (Hpool : pool <> []).
  { subst pool. unfold enabled_count, all_classes in H1.
    destruct uu, ul, ud, us, ex; simpl in H1;
      first [lia | intros Hp; vm_compute in Hp; discriminate Hp]. }
  clearbody required.
  destruct pool as [|c0 pool'] eqn:Epool; [done|]. rewrite <- Epool.
  assert (Hpne : pool <> []) by (rewrite Epool; discriminate).
  clearbody pool.
  destruct (replicateM_steps (Secrets.choice pool)
              (Z.to_nat (len - Z.of_nat (length required)))
              (fun w => choice_steps pool w Hpne) w4)
    as (filler & w5 & E5 & Hflen & S5).
  erewrite bind_returned by exact E5. clear E5.
  destruct (shuffle_from_steps (length (required ++ filler) - 1)
              (required ++ filler) w5)
    as (pw & w6 & E6 & S6); [lia|].
  unfold Random.shuffle.
  erewrite bind_returned by exact E6. clear E6.
  erewrite bind_returned by reflexivity.
  exists pw. eexists. split; [reflexivity|]. cbn [secure_pos twister_pos].
  destruct S1 as (_ & A1 & B1), S2 as (_ & A2 & B2), S3 as (_ & A3 & B3),
    S4 as (_ & A4 & B4), S5 as (_ & A5 & B5), S6 as (_ & A6 & B6).
  rewrite length_app, Hflen in B6.
  assert (Hk4 : (length required <= 4)%nat)
    by (rewrite Hreq; destruct uu, ul, ud, us; simpl; lia).
  split; [rewrite A6, A5, A4, A3, A2, A1|rewrite B6, B5, B4, B3, B2, B1];
    lia.
Qed.

Lemma generation_draw_count_witness :
  valid_config unambiguous_twelve /\
  exists pw w',
    run_generate unambiguous_twelve still_world = (Returned pw, w') /\
    secure_pos w'
    = (secure_pos still_world
       + Z.to_nat (cfg_length unambiguous_twelve))%nat /\
    twister_pos w'
    = (twister_pos still_world
       + (Z.to_nat (cfg_length unambiguous_twelve) - 1))%nat.
Proof.
  assert (Hv : valid_config unambiguous_twelve)
    by (unfold valid_config; cbn; lia).
  split; [exact Hv|].
  exact (generation_draw_count unambiguous_twelve still_world Hv).
Defined.

End Draws.

(** ** The characters of passwords and passphrases *)

Section Characters.

(** X14: A generated password holds visible ASCII characters only. *)
Theorem password_is_visible_ascii cfg w :
  valid_config cfg ->
  exists pw w',
    run_generate cfg w = (Returned pw, w') /\
    List.forallb visible_ascii pw = true.
Proof.
  intros Hv.
  destruct (generate_password_returns cfg w Hv) as (pw & w' & Hrun & Hc & _).
  exists pw, w'. split; [exact Hrun|].
  apply List.forallb_forall. intros c Hin%list_elem_of_In.
  pose proof (composed_printable cfg pw Hc) as Hp.
  rewrite Forall_forall in Hp.
  assert (Hall : List.forallb visible_ascii printable = true)
    by (vm_compute; reflexivity).
  exact (char_in_forallb _ _ _ Hall (Hp c Hin)).
Qed.

Lemma password_is_visible_ascii_witness :
  valid_config four_of_each /\
  exists pw w',
    run_generate four_of_each still_world = (Returned pw, w') /\
    List.forallb visible_ascii pw = true.
Proof.
  assert (Hv : valid_config four_of_each)
    by (unfold valid_config; cbn; lia).
  split; [exact Hv|].
  exact (password_is_visible_ascii four_of_each still_world Hv).
Defined.

Lemma count_of_Permutation (p : char -> bool) (s t : str) :
  s ≡ₚ t -> count_of p s = count_of p t.
Proof.
  unfold count_of.
  induction 1 as [|c s t _ IH|c d s|s t u _ IH1 _ IH2]; simpl.
  - reflexivity.
  - destruct (p c); simpl; by rewrite IH.
  - by destruct (p c), (p d).
  - by rewrite IH1.
Qed.

Lemma count_of_picks (U : UnicodeData) ex cls (required : list char)
    (classes : list CharacterClass) :
  Forall2 (fun c k => c ∈ class_chars k ex) required classes ->
  count_of (kind_test U cls) required
  = length (List.filter (same_class cls) classes).
Proof.
  unfold count_of.
  induction 1 as [|c k required classes Hc _ IH]; [done|].
  simpl. rewrite (class_chars_kind U k ex cls c Hc).
  destruct (same_class cls k); simpl; by rewrite IH.
Qed.

(** X15: When the length equals the number of enabled classes there is no
    filler: the password holds exactly one character of each class. *)
Theorem one_character_per_class cfg w :
  valid_config cfg ->
  cfg_length cfg = Z.of_nat (enabled_count cfg) ->
  exists pw w',
    run_generate cfg w = (Returned pw, w') /\
    forall (U : UnicodeData) cls, count_of (kind_test U cls) pw = 1%nat.
Proof.
  intros Hv Hk.
  destruct (generate_password_returns cfg w Hv) as (pw & w' & Hrun & Hc & _).
  exists pw, w'. split; [exact Hrun|]. intros U cls.
  destruct Hc as (required & filler & Hreq & _ & Hlen & Hperm).
  assert (Hrl : length required = enabled_count cfg)
    by (unfold enabled_count; by apply Forall2_length in Hreq).
  assert (Hfl : filler = []) by (apply nil_length_inv; lia).
  subst filler. rewrite app_nil_r in Hperm.
  rewrite (count_of_Permutation _ _ _ Hperm).
  rewrite (count_of_picks U _ cls _ _ Hreq).
  destruct Hv as (H4 & _ & _). pose proof (enabled_count_le cfg) as Hle.
  assert (H4k : enabled_count cfg = 4%nat) by lia.
  clear -H4k. unfold enabled_count, all_classes in *.
  destruct cfg as [len [] [] [] [] ex]; simpl in H4k; try discriminate H4k.
  by destruct cls.
Qed.

Lemma one_character_per_class_witness :
  valid_config four_of_each /\
  cfg_length four_of_each = Z.of_nat (enabled_count four_of_each) /\
  exists pw w',
    run_generate four_of_each still_world = (Returned pw, w') /\
    forall (U : UnicodeData) cls, count_of (kind_test U cls) pw = 1%nat.
Proof.
  assert (Hv : valid_config four_of_each)
    by (unfold valid_config; cbn; lia).
  assert (Hk : cfg_length four_of_each
               = Z.of_nat (enabled_count four_of_each)) by reflexivity.
  split; [exact Hv|]. split; [exact Hk|].
  exact (one_character_per_class four_of_each still_world Hv Hk).
Defined.

Lemma join_forallb (p : char -> bool) sep (ws : list str) :
  List.forallb p sep = true ->
  Forall (fun x => List.forallb p x = true) ws ->
  List.forallb p (join sep ws) = true.
Proof.
  intros Hsep. induction 1 as [|x ws Hx Hws IH]; [done|].
  destruct ws as [|y ws]; [exact Hx|].
  change (join sep (x :: y :: ws)) with (x ++ sep ++ join sep (y :: ws)).
  by rewrite !List.forallb_app, Hx, Hsep, IH.
Qed.

(** X16: A passphrase holds letters, digits and hyphens only, whatever the word
    count; with at least one word it starts with an upper-case letter, and
    it always ends with a digit. *)
Theorem passphrase_characters word_count w :
  exists pp w',
    generate_passphrase word_count w = (Returned pp, w') /\
    List.forallb passphrase_char pp = true /\
    (1 <= word_count -> exists c, head pp = Some c /\ upper_letter c = true) /\
    (exists c, last pp = Some c /\ decimal_digit c = true).
Proof.
  destruct (generate_passphrase_returns word_count w)
    as (ws & d & w1 & w2 & w' & _ & _ & Hrun & Hlen & Hall & Hlt & _).
  exists (join (lit "-") ws ++ str_of_nat d), w'. split; [exact Hrun|].
  assert (Hwords : List.forallb
            (fun x => List.forallb passphrase_char (capitalize x)) words
          = true) by (vm_compute; reflexivity).
  assert (Hsuf : List.forallb
            (fun n => List.forallb passphrase_char (str_of_nat n)
                      && match last (str_of_nat n) with
                         | Some c => decimal_digit c
                         | None => false
                         end)
            (List.seq 0 100) = true) by (vm_compute; reflexivity).
  rewrite List.forallb_forall in Hwords, Hsuf.
  specialize (Hsuf d). rewrite List.in_seq in Hsuf.
  specialize (Hsuf ltac:(lia)). apply andb_prop in Hsuf as [Hs1 Hs2].
  split; [|split].
  - rewrite List.forallb_app, Hs1, andb_true_r.
    apply join_forallb; [reflexivity|].
    eapply Forall_impl; [exact Hall|].
    intros x (word & Hin%list_elem_of_In & ->). by apply Hwords.
  - intros Hwc. destruct ws as [|x ws]; [simpl in Hlen; lia|].
    apply Forall_cons in Hall as [Hx _].
    pose proof (words_capitalized x Hx) as Hcap.
    destruct x as [|c x]; [discriminate Hcap|].
    exists c. split.
    + by destruct ws.
    + simpl in Hcap. by apply andb_prop in Hcap as [? _].
  - destruct (last (str_of_nat d)) as [c|] eqn:Hl; [|discriminate Hs2].
    exists c. split; [|exact Hs2].
    destruct (str_of_nat d) as [|a s] using rev_ind; [discriminate Hl|].
    rewrite last_snoc in Hl. injection Hl as ->.
    rewrite app_assoc. apply last_snoc.
Qed.

End Characters.

(** ** What was generated last is listed last *)

Section Newest.

Lemma show_history_after_append w w' entry :
  history w' = history w ++ [entry] ->
  exists lines,
    show_history w' = (Returned lines, w') /\
    lines !! (length lines - 2)%nat
    = Some (history_line
              (Nat.min 10 (S (length (history w))), entry)).
Proof.
  intros Hh.
  assert (Hne : history w' <> [])
    by (rewrite Hh; intros Heq; by apply app_nil in Heq as [_ ?]).
  rewrite (show_history_nonempty w' Hne). eexists. split; [reflexivity|].
  set (n := length (history w)).
  assert (Hn' : length (history w') = S n)
    by (rewrite Hh, length_app; simpl; lia).
  assert (Hlast : length (last_items 10 (history w')) = Nat.min 10 (S n))
    by (by rewrite last_items_length, Hn').
  rewrite !length_app, length_map, enumerate_length, Hlast.
  change (length history_banner) with 3%nat.
  change (length [history_footer]) with 1%nat.
  replace (3 + (Nat.min 10 (S n) + 1) - 2)%nat
    with (length history_banner + (Nat.min 10 (S n) - 1))%nat
    by (change (length history_banner) with 3%nat; lia).
  rewrite lookup_app_r by lia.
  replace (length history_banner + (Nat.min 10 (S n) - 1)
           - length history_banner)%nat
    with (Nat.min 10 (S n) - 1)%nat by lia.
  rewrite lookup_app_l
    by (rewrite length_map, enumerate_length, Hlast; lia).
  replace (Nat.min 10 (S n)) with (1 + (Nat.min 10 (S n) - 1))%nat at 2
    by lia.
  apply (map_lookup history_line).
  apply enumerate_lookup.
  rewrite last_items_lookup, Hn', Hh.
  replace (S n - Nat.min 10 (S n) + (Nat.min 10 (S n) - 1))%nat
    with (length (history w) + 0)%nat by (subst n; lia).
  by rewrite lookup_app_r, Nat.add_comm, Nat.add_sub by lia.
Qed.

(** X17: Right after a generation, [show_history] lists the new passphrase or
    password as its last entry, under the number of entries shown. *)
Theorem newest_entry_is_listed_last cfg word_count w :
  (exists pp w' lines,
     generate_passphrase word_count w = (Returned pp, w') /\
     show_history w' = (Returned lines, w') /\
     lines !! (length lines - 2)%nat
     = Some (history_line (Nat.min 10 (S (length (history w))), pp))) /\
  (valid_config cfg ->
   exists pw w' lines,
     run_generate cfg w = (Returned pw, w') /\
     show_history w' = (Returned lines, w') /\
     lines !! (length lines - 2)%nat
     = Some (history_line (Nat.min 10 (S (length (history w))), pw))).
Proof.
  split.
  - destruct (generate_passphrase_returns word_count w)
      as (ws & d & w1 & w2 & w' & _ & _ & Hrun & _ & _ & _ & Hh).
    destruct (show_history_after_append w w' _ Hh) as (lines & Hs & Hl).
    eauto 10.
  - intros Hv.
    destruct (generate_password_returns cfg w Hv)
      as (pw & w' & Hrun & _ & _ & _ & Hh).
    destruct (show_history_after_append w w' _ Hh) as (lines & Hs & Hl).
    eauto 10.
Qed.

End Newest.
